(** * Pokemon Database API (server.js): query translation, pagination and
      CRUD handlers, embedded over an in-memory table.

    The handlers of server.js are translated one by one.  What the source
    delegates to Sequelize and PostgreSQL (evaluating a [where] object,
    ORDER BY / LIMIT / OFFSET, INSERT / UPDATE / DELETE) is given here as
    executable functions over a list of rows, in the section
    "The Pokemon table".

    Conventions.
    - JavaScript numbers are modelled by [jsnum]: integers together with
      -0, NaN and the two infinities.  Subtraction, multiplication and
      [parseInt] round their result to the nearest double (exact up to
      2^53, infinite from 2^1024 on).  Fractions never reach an observable
      position: the only division in the source sits directly under
      [Math.ceil], whose result is exact for row counts below 2^53.
    - Strings are sequences of ASCII characters; case folding is ASCII.
    - [req.query] is a map from parameter names to strings (repeated or
      bracketed parameters, which Express turns into arrays and objects,
      are outside the model).
    - Timestamps in response bodies are left out. *)

From Stdlib Require Import ZArith Ascii String List Bool Lia.
From stdpp Require Import gmap strings list fin_maps sorting.

Local Open Scope string_scope.
Local Open Scope Z_scope.

(** ** JavaScript numbers *)

Inductive jsnum : Type :=
| Num (z : Z)      (* a finite integer; [Num 0] is +0 *)
| NegZero          (* -0 *)
| NaN
| PosInf
| NegInf.

#[export] Instance jsnum_eq_dec : EqDecision jsnum.
Proof. solve_decision. Defined.

Module JsNum.

(** The integer a finite number denotes; both zeros denote 0. *)
Definition int_of (a : jsnum) : option Z :=
  match a with
  | Num z => Some z
  | NegZero => Some 0
  | _ => None
  end.

Definition is_neg (a : jsnum) : bool :=
  match a with
  | Num z => z <? 0
  | NegZero | NegInf => true
  | NaN | PosInf => false
  end.

(** A finite result with the sign a zero must carry. *)
Definition mk (neg : bool) (z : Z) : jsnum :=
  if z =? 0 then (if neg then NegZero else Num 0) else Num z.

Definition inf (neg : bool) : jsnum := if neg then NegInf else PosInf.

Definition is_zero (a : jsnum) : bool :=
  match a with
  | Num z => z =? 0
  | NegZero => true
  | _ => false
  end.

(** The double nearest to a non-negative integer [a], ties to the even
    significand: exact below 2^53, otherwise [a] rounded to 53 significant
    bits. *)
Definition round_mag (a : Z) : Z :=
  if a <? 2 ^ 53 then a
  else
    let e := Z.log2 a - 52 in
    let q := a / 2 ^ e in
    let r := a mod 2 ^ e in
    let half := 2 ^ (e - 1) in
    let q' := if r <? half then q
              else if half <? r then q + 1
              else if Z.even q then q else q + 1 in
    q' * 2 ^ e.

(** The Number for the mathematical integer [z]: rounded to the nearest
    double, infinite when the rounded magnitude reaches 2^1024; [neg] is
    the sign a zero carries. *)
Definition of_Z (neg : bool) (z : Z) : jsnum :=
  let a := round_mag (Z.abs z) in
  if 2 ^ 1024 <=? a then inf (z <? 0) else mk neg (Z.sgn z * a).

(** [a - b] *)
Definition sub (a b : jsnum) : jsnum :=
  match a, b with
  | NaN, _ | _, NaN => NaN
  | PosInf, PosInf | NegInf, NegInf => NaN
  | PosInf, _ | _, NegInf => PosInf
  | NegInf, _ | _, PosInf => NegInf
  | NegZero, Num 0 => NegZero
  | NegZero, NegZero => Num 0
  | NegZero, Num y => of_Z false (- y)
  | Num x, NegZero => Num x
  | Num x, Num y => of_Z false (x - y)
  end.

(** [a * b] *)
Definition mul (a b : jsnum) : jsnum :=
  match a, b with
  | NaN, _ | _, NaN => NaN
  | (PosInf | NegInf), _ =>
      if is_zero b then NaN else inf (xorb (is_neg a) (is_neg b))
  | _, (PosInf | NegInf) =>
      if is_zero a then NaN else inf (xorb (is_neg a) (is_neg b))
  | _, _ =>
      match int_of a, int_of b with
      | Some x, Some y => of_Z (xorb (is_neg a) (is_neg b)) (x * y)
      | _, _ => NaN
      end
  end.

(** [Math.min(a, b)] *)
Definition min (a b : jsnum) : jsnum :=
  match a, b with
  | NaN, _ | _, NaN => NaN
  | NegInf, _ | _, NegInf => NegInf
  | PosInf, x | x, PosInf => x
  | NegZero, Num y => if 0 <=? y then NegZero else Num y
  | Num x, NegZero => if 0 <=? x then NegZero else Num x
  | NegZero, NegZero => NegZero
  | Num x, Num y => Num (Z.min x y)
  end.

(** [Math.ceil(a / b)].  For finite non-zero [b] the quotient is the
    rational x/y and its ceiling is [- ((- x) / y)] ([Z.div] rounds
    towards minus infinity); a zero result keeps the quotient's sign.
    The rounding of the quotient to a double cannot reach an integer the
    quotient itself does not reach as long as [x] is below 2^53, which a
    row count is. *)
Definition div_ceil (a b : jsnum) : jsnum :=
  match a, b with
  | NaN, _ | _, NaN => NaN
  | (PosInf | NegInf), (PosInf | NegInf) => NaN
  | (PosInf | NegInf), _ => inf (xorb (is_neg a) (is_neg b))
  | _, (PosInf | NegInf) => mk (xorb (is_neg a) (is_neg b)) 0
  | _, _ =>
      match int_of a, int_of b with
      | Some x, Some y =>
          if y =? 0
          then (if x =? 0 then NaN else inf (xorb (is_neg a) (is_neg b)))
          else mk (xorb (is_neg a) (is_neg b)) (- ((- x) / y))
      | _, _ => NaN
      end
  end.

(** [a < b] *)
Definition lt (a b : jsnum) : bool :=
  match a, b with
  | NaN, _ | _, NaN => false
  | _, NegInf => false
  | NegInf, _ => true
  | PosInf, _ => false
  | _, PosInf => true
  | _, _ =>
      match int_of a, int_of b with
      | Some x, Some y => x <? y
      | _, _ => false
      end
  end.

(** [a > b] *)
Definition gt (a b : jsnum) : bool := lt b a.

End JsNum.

(** ** Strings *)

Definition is_upper (c : ascii) : bool :=
  let n := nat_of_ascii c in (65 <=? n)%nat && (n <=? 90)%nat.

Definition is_lower (c : ascii) : bool :=
  let n := nat_of_ascii c in (97 <=? n)%nat && (n <=? 122)%nat.

Definition lower_ascii (c : ascii) : ascii :=
  if is_upper c then ascii_of_nat (nat_of_ascii c + 32) else c.

Definition upper_ascii (c : ascii) : ascii :=
  if is_lower c then ascii_of_nat (nat_of_ascii c - 32) else c.

Fixpoint map_string (f : ascii -> ascii) (s : string) : string :=
  match s with
  | EmptyString => EmptyString
  | String c s' => String (f c) (map_string f s')
  end.

(** [s.toUpperCase()], for the ASCII letters.  A string holds the UTF-8
    bytes of the JavaScript string; the bytes of the characters beyond ASCII
    are left as they are. *)
Definition toUpperCase (s : string) : string := map_string upper_ascii s.

(** The strings that hold ASCII characters only. *)
Definition ascii_only (s : string) : bool :=
  forallb (fun c => (nat_of_ascii c <? 128)%nat) (list_ascii_of_string s).

Definition toLowerCase (s : string) : string := map_string lower_ascii s.

(** ** parseInt *)

(** The ASCII white space: TAB, LF, VT, FF, CR and space. *)
Definition is_ws (c : ascii) : bool :=
  let n := nat_of_ascii c in
  ((9 <=? n)%nat && (n <=? 13)%nat) || (n =? 32)%nat.

Fixpoint skip_ws (s : string) : string :=
  match s with
  | String c s' => if is_ws c then skip_ws s' else s
  | EmptyString => EmptyString
  end.

(** The white space of ECMAScript beyond ASCII, by its UTF-8 bytes:
    U+00A0 on two bytes; U+1680, U+2000 to U+200A, U+2028, U+2029, U+202F,
    U+205F, U+3000 and U+FEFF on three. *)
Definition is_ws2 (c d : ascii) : bool :=
  (nat_of_ascii c =? 194)%nat && (nat_of_ascii d =? 160)%nat.

Definition is_ws3 (c d e : ascii) : bool :=
  let c := nat_of_ascii c in
  let d := nat_of_ascii d in
  let e := nat_of_ascii e in
  ((c =? 225) && (d =? 154) && (e =? 128)
   || (c =? 226) && (d =? 128)
      && ((128 <=? e) && (e <=? 138) || (e =? 168) || (e =? 169) || (e =? 175))
   || (c =? 226) && (d =? 129) && (e =? 159)
   || (c =? 227) && (d =? 128) && (e =? 128)
   || (c =? 239) && (d =? 187) && (e =? 191))%nat.

(** The white space that [parseInt] skips: WhiteSpace and LineTerminator. *)
Fixpoint skip_js_ws (s : string) : string :=
  match s with
  | EmptyString => EmptyString
  | String c r =>
      if is_ws c then skip_js_ws r
      else match r with
           | String d r1 =>
               if is_ws2 c d then skip_js_ws r1
               else match r1 with
                    | String e r2 => if is_ws3 c d e then skip_js_ws r2 else s
                    | EmptyString => s
                    end
           | EmptyString => s
           end
  end.

(** The value of [c] as a digit, when it is one in the given radix. *)
Definition digit_val (radix : Z) (c : ascii) : option Z :=
  let n := Z.of_nat (nat_of_ascii c) in
  let d := if (48 <=? n) && (n <=? 57) then Some (n - 48)
           else if (97 <=? n) && (n <=? 122) then Some (n - 87)
           else if (65 <=? n) && (n <=? 90) then Some (n - 55)
           else None in
  match d with
  | Some v => if v <? radix then Some v else None
  | None => None
  end.

(** The longest prefix of digits, read in the radix; [None] when empty. *)
Fixpoint digits_prefix (radix : Z) (s : string) (acc : option Z) : option Z :=
  match s with
  | EmptyString => acc
  | String c s' =>
      match digit_val radix c with
      | Some d => digits_prefix radix s' (Some (radix * default 0 acc + d))
      | None => acc
      end
  end.

(** [parseInt(s)] with no radix argument: leading white space, an optional
    sign, an optional 0x / 0X prefix selecting radix 16, then digits up to
    the first character that is not one.  No digits: NaN.  The integer
    read is returned as a Number, hence rounded to the nearest double. *)
Definition parseInt (s : string) : jsnum :=
  let s1 := skip_js_ws s in
  let '(neg, s2) :=
    match s1 with
    | String "-" r => (true, r)
    | String "+" r => (false, r)
    | _ => (false, s1)
    end in
  let '(radix, s3) :=
    match s2 with
    | String "0" (String "x" r) => (16, r)
    | String "0" (String "X" r) => (16, r)
    | _ => (10, s2)
    end in
  match digits_prefix radix s3 None with
  | Some m => JsNum.of_Z neg (if neg then - m else m)
  | None => NaN
  end.

(** ** JSON values *)

(** The values a JSON body can hold.  Numbers are integers: the stat block
    holds integer stats.  An object is a finite map from its keys. *)
Local Unset Elimination Schemes.
Inductive jsval : Type :=
| JNull
| JBool (b : bool)
| JNum (n : Z)
| JStr (s : string)
| JArr (l : list jsval)
| JObj (o : gmap string jsval).
Local Set Elimination Schemes.

(** [typeof v === 'number' ? v : 0] *)
Definition number_or_zero (v : jsval) : Z :=
  match v with
  | JNum n => n
  | _ => 0
  end.

(** [Object.values(o).reduce((sum, stat) =>
       sum + (typeof stat === 'number' ? stat : 0), 0)] *)
Definition sum_values (o : gmap string jsval) : Z :=
  map_fold (fun _ stat sum => sum + number_or_zero stat) 0 o.

(** The statement guarded by
    [if (data.baseStats && typeof data.baseStats === 'object')]:
    [data.baseStats.total = Object.values(data.baseStats).reduce(...)].
    An array passes the guard as well; the [total] property set on it is
    not an element, so the array is stored and serialised as it came. *)
Definition recompute_total (v : jsval) : jsval :=
  match v with
  | JObj o => JObj (<["total" := JNum (sum_values o)]> o)
  | _ => v
  end.

(** ** The Pokemon model *)

Module Pokemon.
(** The columns the handlers and the claims read.  The remaining columns
    of the model (height, weight, abilities, evolutionChain, habitat,
    captureRate, baseExperience, genderRatio, eggGroups, sprite and the
    two timestamps) are stored and returned untouched by every handler
    and are left out. *)
Record t : Type := mk {
  id : Z;
  name : string;
  species : string;
  types : list string;
  baseStats : jsval;
  generation : Z;
  description : string
}.

(** [baseStats.total] when the stat block is an object whose [total] is a
    number. *)
Definition total (p : t) : option Z :=
  match baseStats p with
  | JObj o => match o !! "total" with
              | Some (JNum n) => Some n
              | _ => None
              end
  | _ => None
  end.
End Pokemon.

(** A request body of POST and PUT: each attribute is present or absent.
    Only [baseStats] is inspected by the handlers, so it alone is kept as a
    raw JSON value.  The body is taken to hold no [id] and no dotted key
    (such as baseStats.hp), which Sequelize would read as well. *)
Record PokemonData : Type := {
  d_name : option string;
  d_species : option string;
  d_types : option (list string);
  d_baseStats : option jsval;
  d_generation : option Z;
  d_description : option string
}.

Definition set_baseStats (d : PokemonData) (v : jsval) : PokemonData :=
  {| d_name := d_name d; d_species := d_species d; d_types := d_types d;
     d_baseStats := Some v; d_generation := d_generation d;
     d_description := d_description d |}.

(** ** Where objects *)

Module Where.
(** The object built by [buildWhereClause] and extended by the search
    handler.  One field per key the source can set:
    - [name]: [{ [Op.iLike]: pattern }]
    - [types]: [{ [Op.contains]: [tag] }]
    - [generation]: the number itself
    - [baseStats_total] (key 'baseStats.total'): [{ [Op.gte], [Op.lte] }]
    - [op_or] (key [Op.or]): the pattern tried on name, species and
      description. *)
Record t : Type := mk {
  name : option string;
  types : option string;
  generation : option jsnum;
  baseStats_total : option (option jsnum * option jsnum);
  op_or : option string
}.

Definition empty : t := mk None None None None None.
End Where.

(** A non-empty string is truthy. *)
Definition truthy (o : option string) : option string :=
  match o with
  | Some "" => None
  | _ => o
  end.

Definition buildWhereClause (filters : gmap string string) : Where.t :=
  {| Where.name :=
       (fun n => "%" ++ n ++ "%") <$> truthy (filters !! "name");
     Where.types := truthy (filters !! "type");
     Where.generation := parseInt <$> truthy (filters !! "generation");
     Where.baseStats_total :=
       match truthy (filters !! "minStats"), truthy (filters !! "maxStats") with
       | None, None => None
       | lo, hi => Some (parseInt <$> lo, parseInt <$> hi)
       end;
     Where.op_or := None |}.

(** ** Pattern matching: LIKE and ILIKE *)

(** PostgreSQL's LIKE: [%] matches any sequence of characters, [_] any one
    character, a backslash (character 092) makes the next character
    literal. *)
Fixpoint like (p s : string) : bool :=
  match p with
  | EmptyString => match s with EmptyString => true | _ => false end
  | String c p' =>
      if Ascii.eqb c "%" then
        (fix any (s : string) : bool :=
           like p' s ||
           match s with
           | EmptyString => false
           | String _ s' => any s'
           end) s
      else if Ascii.eqb c "_" then
        match s with
        | String _ s' => like p' s'
        | EmptyString => false
        end
      else if Ascii.eqb c "092" then
        match p' with
        | String e p'' =>
            match s with
            | String d s' => Ascii.eqb e d && like p'' s'
            | EmptyString => false
            end
        | EmptyString => false  (* a pattern may not end in the escape *)
        end
      else
        match s with
        | String d s' => Ascii.eqb c d && like p' s'
        | EmptyString => false
        end
  end.

(** ILIKE: LIKE after case folding, of the ASCII letters. *)
Definition ilike (p s : string) : bool := like (toLowerCase p) (toLowerCase s).

(** ** The Pokemon table

    What Sequelize and PostgreSQL do for the handlers, over a list of rows
    kept in insertion order.  A call either returns or throws an error with
    a name and a message, which is all the handlers look at. *)

Inductive dberror : Type :=
| ValidationError (messages : list string)   (* SequelizeValidationError *)
| UniqueConstraintError                      (* SequelizeUniqueConstraintError *)
| DatabaseError (message : string).          (* SequelizeDatabaseError and the like *)

Inductive result (A : Type) : Type :=
| Ok (a : A)
| Throw (e : dberror).
Arguments Ok {A} a.
Arguments Throw {A} e.

#[export] Instance result_bind : MBind result := fun A B k r =>
  match r with
  | Ok a => k a
  | Throw e => Throw e
  end.

Record Table : Type := {
  rows : list Pokemon.t;
  next_id : Z                 (* the serial behind [autoIncrement] *)
}.

(** [error.message] *)
Definition error_message (e : dberror) : string :=
  match e with
  | ValidationError ms =>
      String.concat ("," ++ String "010" "")
        (List.map (fun m => "notNull Violation: " ++ m) ms)
  | UniqueConstraintError => "Validation error"
  | DatabaseError m => m
  end.

(** A number written into SQL must be a finite integer: NaN and Infinity
    are rendered as the bare words NaN and Infinity, which PostgreSQL
    rejects. *)
Definition sql_int (a : jsnum) : result Z :=
  match JsNum.int_of a with
  | Some z => Ok z
  | None => Throw (DatabaseError "column does not exist")
  end.

Definition sql_int_opt (o : option jsnum) : result (option Z) :=
  match o with
  | None => Ok None
  | Some a => z ← sql_int a; Ok (Some z)
  end.

(** The numeric operands of a where object, checked. *)
Definition where_operands (w : Where.t) : result unit :=
  _ ← sql_int_opt (Where.generation w);
  match Where.baseStats_total w with
  | None => Ok tt
  | Some (lo, hi) => _ ← sql_int_opt lo; _ ← sql_int_opt hi; Ok tt
  end.

Definition string_in (tag : string) (tags : list string) : bool :=
  existsb (String.eqb tag) tags.

Definition opt_all {A} (o : option A) (f : A -> bool) : bool :=
  match o with
  | None => true
  | Some a => f a
  end.

(** The row satisfies the where object: every key that is set must hold. *)
Definition matches (w : Where.t) (p : Pokemon.t) : bool :=
  opt_all (Where.name w) (fun pat => ilike pat (Pokemon.name p))
  && opt_all (Where.types w) (fun tag => string_in tag (Pokemon.types p))
  && opt_all (Where.generation w) (fun g =>
       match JsNum.int_of g with
       | Some z => Pokemon.generation p =? z
       | None => false
       end)
  && opt_all (Where.baseStats_total w) (fun '(lo, hi) =>
       match Pokemon.total p with
       | Some t =>
           opt_all lo (fun a => match JsNum.int_of a with
                                | Some z => z <=? t
                                | None => false
                                end)
           && opt_all hi (fun a => match JsNum.int_of a with
                                   | Some z => t <=? z
                                   | None => false
                                   end)
       | None => false
       end)
  && opt_all (Where.op_or w) (fun pat =>
       ilike pat (Pokemon.name p)
       || ilike pat (Pokemon.species p)
       || ilike pat (Pokemon.description p)).

(** [Pokemon.findAll({ where })] *)
Definition findAll (w : Where.t) (t : Table) : result (list Pokemon.t) :=
  _ ← where_operands w;
  Ok (List.filter (matches w) (rows t)).

(** *** Ordering *)

Fixpoint insert_by (le : Pokemon.t -> Pokemon.t -> bool)
    (x : Pokemon.t) (l : list Pokemon.t) : list Pokemon.t :=
  match l with
  | [] => [x]
  | y :: l' => if le x y then x :: l else y :: insert_by le x l'
  end.

(** A stable sort. *)
Definition sort_by (le : Pokemon.t -> Pokemon.t -> bool)
    (l : list Pokemon.t) : list Pokemon.t :=
  fold_right (insert_by le) [] l.

(** The order of a column.  Only the scalar columns kept in [Pokemon.t] are
    ordered here; any other name is answered like an unknown column. *)
Definition column_le (col : string) : option (Pokemon.t -> Pokemon.t -> bool) :=
  if String.eqb col "id" then
    Some (fun a b => Pokemon.id a <=? Pokemon.id b)
  else if String.eqb col "generation" then
    Some (fun a b => Pokemon.generation a <=? Pokemon.generation b)
  else if String.eqb col "name" then
    Some (fun a b => String.leb (Pokemon.name a) (Pokemon.name b))
  else if String.eqb col "species" then
    Some (fun a b => String.leb (Pokemon.species a) (Pokemon.species b))
  else if String.eqb col "description" then
    Some (fun a b => String.leb (Pokemon.description a) (Pokemon.description b))
  else None.

(** The directions Sequelize lets through: [Some true] ascending,
    [Some false] descending.  The columns kept here hold no NULL, so the
    NULLS FIRST / NULLS LAST suffixes change nothing. *)
Definition order_direction (dir : string) : option bool :=
  if String.eqb dir "ASC" || String.eqb dir "ASC NULLS FIRST"
     || String.eqb dir "ASC NULLS LAST" || String.eqb dir "NULLS FIRST"
     || String.eqb dir "NULLS LAST"
  then Some true
  else if String.eqb dir "DESC" || String.eqb dir "DESC NULLS FIRST"
          || String.eqb dir "DESC NULLS LAST"
  then Some false
  else None.

(** [order: [[column, direction], ...]]: the first pair is the major key. *)
Definition order_rows (order : list (string * string))
    (l : list Pokemon.t) : result (list Pokemon.t) :=
  fold_right
    (fun '(col, dir) acc =>
       l' ← acc;
       match column_le col with
       | None => Throw (DatabaseError "column does not exist")
       | Some le =>
           match order_direction dir with
           | Some true => Ok (sort_by le l')
           | Some false => Ok (sort_by (fun a b => le b a) l')
           | None => Throw (DatabaseError "Order must be 'ASC' or 'DESC'")
           end
       end)
    (Ok l) order.

(** *** Query options *)

(** The values of a query-options object. *)
Inductive qval : Type :=
| QWhere (w : Where.t)
| QOrder (o : list (string * string))
| QNum (n : jsnum)
| QJson (v : jsval).

(** LIMIT and OFFSET take a non-negative integer that fits a bigint. *)
Definition sql_count (n : jsnum) : result nat :=
  z ← sql_int n;
  if z <? 0 then Throw (DatabaseError "LIMIT and OFFSET must not be negative")
  else if 2 ^ 63 <=? z then Throw (DatabaseError "bigint out of range")
  else Ok (Z.to_nat z).

(** [Pokemon.findAndCountAll(options)]: the number of rows that satisfy
    [options.where], and those rows ordered, skipped and limited. *)
Definition findAndCountAll (options : gmap string qval) (t : Table)
    : result (nat * list Pokemon.t) :=
  let w := match options !! "where" with Some (QWhere w) => w | _ => Where.empty end in
  let order := match options !! "order" with Some (QOrder o) => o | _ => [] end in
  matching ← findAll w t;
  sorted ← order_rows order matching;
  offset ← match options !! "offset" with
           | Some (QNum n) => sql_count n
           | _ => Ok 0%nat
           end;
  match options !! "limit" with
  | Some (QNum n) =>
      limit ← sql_count n;
      Ok (length matching, take limit (drop offset sorted))
  | _ => Ok (length matching, drop offset sorted)
  end.

(** *** Primary keys *)

Fixpoint all_ws (s : string) : bool :=
  match s with
  | EmptyString => true
  | String c s' => is_ws c && all_ws s'
  end.

Fixpoint read_digits (s : string) (acc : option Z) : option Z * string :=
  match s with
  | EmptyString => (acc, s)
  | String c s' =>
      match digit_val 10 c with
      | Some d => read_digits s' (Some (10 * default 0 acc + d))
      | None => (acc, s)
      end
  end.

(** How PostgreSQL reads a quoted literal compared with an INTEGER column:
    a decimal integer, sign and surrounding white space allowed, within 32
    bits.  Anything else is taken as an error (PostgreSQL 16 and later
    also read 0x, 0o and 0b literals and underscores between digits). *)
Definition pg_int4_in (s : string) : option Z :=
  let s1 := skip_ws s in
  let '(neg, s2) :=
    match s1 with
    | String "-" r => (true, r)
    | String "+" r => (false, r)
    | _ => (false, s1)
    end in
  match read_digits s2 None with
  | (Some m, rest) =>
      let z := if neg then - m else m in
      if all_ws rest && (-2147483648 <=? z) && (z <=? 2147483647)
      then Some z else None
  | (None, _) => None
  end.

(** [Pokemon.findByPk(param)] with the route parameter, a string. *)
Definition findByPk (param : string) (t : Table) : result (option Pokemon.t) :=
  match pg_int4_in param with
  | Some k => Ok (List.find (fun r => Pokemon.id r =? k) (rows t))
  | None => Throw (DatabaseError "invalid input syntax for type integer")
  end.

(** *** Writes *)

Definition non_null (o : option jsval) : option jsval :=
  match o with
  | Some JNull => None
  | _ => o
  end.

Definition missing {A} (o : option A) (attr : string) : list string :=
  match o with
  | None => ["Pokemon." ++ attr ++ " cannot be null"]
  | Some _ => []
  end.

(** The [allowNull: false] columns that the data leaves unset. *)
Definition not_null_violations (d : PokemonData) : list string :=
  missing (d_name d) "name" ++ missing (d_species d) "species"
  ++ missing (d_types d) "types" ++ missing (non_null (d_baseStats d)) "baseStats"
  ++ missing (d_description d) "description".

Definition name_taken (n : string) (l : list Pokemon.t) : bool :=
  existsb (fun r => String.eqb (Pokemon.name r) n) l.

(** [Pokemon.create(data)].  The data is taken to fit its columns (a name
    and a species of at most 255 characters, a generation within 32 bits):
    PostgreSQL refuses a row that does not, and an INSERT it refuses still
    draws a value from the serial, which [next_id] does not record. *)
Definition create (d : PokemonData) (t : Table) : result (Pokemon.t * Table) :=
  match d_name d, d_species d, d_types d, non_null (d_baseStats d), d_description d with
  | Some n, Some sp, Some ty, Some bs, Some de =>
      if name_taken n (rows t) then Throw UniqueConstraintError
      else
        let p := Pokemon.mk (next_id t) n sp ty bs (default 1 (d_generation d)) de in
        Ok (p, {| rows := rows t ++ [p]; next_id := next_id t + 1 |})
  | _, _, _, _, _ => Throw (ValidationError (not_null_violations d))
  end.

(** [pokemon.update(data)]: the attributes present in [data] replace the
    instance's.  The data is taken to fit its columns, as for [create];
    the row keeps its place in [rows], while PostgreSQL may return an
    updated row at another place of an unordered query. *)
Definition update (p : Pokemon.t) (d : PokemonData) (t : Table)
    : result (Pokemon.t * Table) :=
  match d_baseStats d with
  | Some JNull => Throw (ValidationError ["Pokemon.baseStats cannot be null"])
  | _ =>
      let p' := Pokemon.mk (Pokemon.id p)
                  (default (Pokemon.name p) (d_name d))
                  (default (Pokemon.species p) (d_species d))
                  (default (Pokemon.types p) (d_types d))
                  (default (Pokemon.baseStats p) (d_baseStats d))
                  (default (Pokemon.generation p) (d_generation d))
                  (default (Pokemon.description p) (d_description d)) in
      if name_taken (Pokemon.name p')
           (List.filter (fun r => negb (Pokemon.id r =? Pokemon.id p)) (rows t))
      then Throw UniqueConstraintError
      else Ok (p', {| rows := List.map (fun r => if Pokemon.id r =? Pokemon.id p
                                                 then p' else r) (rows t);
                      next_id := next_id t |})
  end.

(** [pokemon.destroy()] *)
Definition destroy (p : Pokemon.t) (t : Table) : result Table :=
  Ok {| rows := List.filter (fun r => negb (Pokemon.id r =? Pokemon.id p)) (rows t);
        next_id := next_id t |}.

(** ** Utility functions of server.js *)

(** [paginate = (query, page = 1, limit = 20) => ...]: an absent argument
    takes its default. *)
Definition paginate (query : gmap string qval) (page limit : option jsnum)
    : gmap string qval :=
  let page := default (Num 1) page in
  let limit := default (Num 20) limit in
  let offset := JsNum.mul (JsNum.sub page (Num 1)) limit in
  <["limit" := QNum (JsNum.min limit (Num 100))]>
    (<["offset" := QNum offset]> query).

(** ** Responses *)

Record Pagination : Type := {
  currentPage : jsnum;
  totalPages : jsnum;
  totalItems : nat;
  itemsPerPage : jsnum;
  hasNextPage : bool;
  hasPreviousPage : bool
}.

Inductive body : Type :=
| ListBody (data : list Pokemon.t) (pagination : Pagination)
    (filters : gmap string string) (sort order : string)
| EntityBody (data : Pokemon.t) (message : option string)
| SearchBody (data : list Pokemon.t) (query : gmap string string)
    (resultCount : nat)
| ErrorBody (error message : string).

Record Response : Type := {
  status : Z;
  content : body
}.

(** The [success] flag of the envelope. *)
Definition success (r : Response) : bool :=
  match content r with
  | ErrorBody _ _ => false
  | _ => true
  end.

(** The entities in [data], when it is a list. *)
Definition data_list (r : Response) : list Pokemon.t :=
  match content r with
  | ListBody d _ _ _ _ | SearchBody d _ _ => d
  | _ => []
  end.

(** The entity in [data], when it is one. *)
Definition data_entity (r : Response) : option Pokemon.t :=
  match content r with
  | EntityBody p _ => Some p
  | _ => None
  end.

Definition pagination_of (r : Response) : option Pagination :=
  match content r with
  | ListBody _ pg _ _ _ => Some pg
  | _ => None
  end.

Definition internal_error (e : dberror) : Response :=
  {| status := 500;
     content := ErrorBody "Internal server error" (error_message e) |}.

Definition not_found (id : string) : Response :=
  {| status := 404;
     content := ErrorBody "Pokémon not found" ("No Pokémon found with ID " ++ id) |}.

(** ** Route handlers *)

(** The [queryOptions] of GET /api/v1/pokemon:
    [paginate({ where, order: [[sort, order.toUpperCase()]] },
              parseInt(page), parseInt(limit))]
    with [page = 1, limit = 20, sort = 'id', order = 'ASC'] by default and
    [filters] the rest of [req.query]. *)
Definition list_page (query : gmap string string) : jsnum :=
  from_option parseInt (Num 1) (query !! "page").

Definition list_limit (query : gmap string string) : jsnum :=
  from_option parseInt (Num 20) (query !! "limit").

Definition list_filters (query : gmap string string) : gmap string string :=
  delete "order" (delete "sort" (delete "limit" (delete "page" query))).

Definition list_options (query : gmap string string) : gmap string qval :=
  let sort := default "id" (query !! "sort") in
  let order := default "ASC" (query !! "order") in
  let whereClause := buildWhereClause (list_filters query) in
  paginate (<["order" := QOrder [(sort, toUpperCase order)]]>
              (<["where" := QWhere whereClause]> ∅))
           (Some (list_page query)) (Some (list_limit query)).

(** GET /api/v1/pokemon *)
Definition get_pokemon_list (query : gmap string string) (t : Table) : Response :=
  let page := list_page query in
  let limit := list_limit query in
  match findAndCountAll (list_options query) t with
  | Ok (count, found) =>
      let totalPages := JsNum.div_ceil (Num (Z.of_nat count)) limit in
      {| status := 200;
         content :=
           ListBody found
             {| currentPage := page;
                totalPages := totalPages;
                totalItems := count;
                itemsPerPage := limit;
                hasNextPage := JsNum.lt page totalPages;
                hasPreviousPage := JsNum.gt page (Num 1) |}
             (list_filters query)
             (default "id" (query !! "sort"))
             (default "ASC" (query !! "order")) |}
  | Throw e => internal_error e
  end.

(** GET /api/v1/pokemon/:id *)
Definition get_pokemon (id : string) (t : Table) : Response :=
  match findByPk id t with
  | Ok None => not_found id
  | Ok (Some pokemon) => {| status := 200; content := EntityBody pokemon None |}
  | Throw e => internal_error e
  end.

(** The guard [data.baseStats && typeof data.baseStats === 'object']. *)
Definition is_object (v : jsval) : bool :=
  match v with
  | JObj _ | JArr _ => true
  | _ => false
  end.

(** The "calculate total stats" step shared by POST and PUT. *)
Definition with_total (d : PokemonData) : PokemonData :=
  match d_baseStats d with
  | Some v => if is_object v then set_baseStats d (recompute_total v) else d
  | None => d
  end.

(** POST /api/v1/pokemon *)
Definition post_pokemon (requestBody : PokemonData) (t : Table) : Response * Table :=
  let pokemonData := with_total requestBody in
  match create pokemonData t with
  | Ok (pokemon, t') =>
      ({| status := 201;
          content := EntityBody pokemon (Some "Pokémon created successfully") |}, t')
  | Throw (ValidationError messages) =>
      ({| status := 400;
          content := ErrorBody "Validation error" (String.concat ", " messages) |}, t)
  | Throw e => (internal_error e, t)
  end.

(** PUT /api/v1/pokemon/:id *)
Definition put_pokemon (id : string) (requestBody : PokemonData) (t : Table)
    : Response * Table :=
  match findByPk id t with
  | Ok None => (not_found id, t)
  | Ok (Some pokemon) =>
      let updateData := with_total requestBody in
      match update pokemon updateData t with
      | Ok (pokemon', t') =>
          ({| status := 200;
              content := EntityBody pokemon' (Some "Pokémon updated successfully") |}, t')
      | Throw e => (internal_error e, t)
      end
  | Throw e => (internal_error e, t)
  end.

(** DELETE /api/v1/pokemon/:id *)
Definition delete_pokemon (id : string) (t : Table) : Response * Table :=
  match findByPk id t with
  | Ok None => (not_found id, t)
  | Ok (Some pokemon) =>
      match destroy pokemon t with
      | Ok t' =>
          ({| status := 200;
              content := EntityBody pokemon (Some "Pokémon deleted successfully") |}, t')
      | Throw e => (internal_error e, t)
      end
  | Throw e => (internal_error e, t)
  end.

(** The where object of the search handler: [buildWhereClause(filters)],
    extended with [Op.or] when [q] is truthy. *)
Definition search_where (query : gmap string string) : Where.t :=
  let q := query !! "q" in
  let filters := delete "q" query in
  let whereClause := buildWhereClause filters in
  match truthy q with
  | Some q =>
      {| Where.name := Where.name whereClause;
         Where.types := Where.types whereClause;
         Where.generation := Where.generation whereClause;
         Where.baseStats_total := Where.baseStats_total whereClause;
         Where.op_or := Some ("%" ++ q ++ "%") |}
  | None => whereClause
  end.

(** GET /api/v1/search *)
Definition get_search (query : gmap string string) (t : Table) : Response :=
  match findAll (search_where query) t with
  | Ok results =>
      {| status := 200;
         content := SearchBody results query (length results) |}
  | Throw e => internal_error e
  end.

(** ** The specification's wording, for comparison *)

Fixpoint starts_with (q s : string) : bool :=
  match q, s with
  | EmptyString, _ => true
  | String a q', String b s' => Ascii.eqb a b && starts_with q' s'
  | String _ _, EmptyString => false
  end.

(** [q] occurs in [s]. *)
Fixpoint contains (q s : string) : bool :=
  starts_with q s ||
  match s with
  | EmptyString => false
  | String _ s' => contains q s'
  end.

(** "[s] case-insensitively contains [q]" *)
Definition contains_ci (q s : string) : bool :=
  contains (toLowerCase q) (toLowerCase s).

(** No character of [q] is special in a LIKE pattern. *)
Fixpoint wildcard_free (q : string) : bool :=
  match q with
  | EmptyString => true
  | String c q' =>
      negb (Ascii.eqb c "%") && negb (Ascii.eqb c "_") && negb (Ascii.eqb c "092")
      && wildcard_free q'
  end.

(** The search predicate as the specification words it: the filters, and
    [q] contained in the name, the species or the description. *)
Definition spec_search_predicate (query : gmap string string) (q : string)
    (p : Pokemon.t) : bool :=
  matches (buildWhereClause (delete "q" query)) p
  && (contains_ci q (Pokemon.name p)
      || contains_ci q (Pokemon.species p)
      || contains_ci q (Pokemon.description p)).

(** The page count as the specification words it:
    ceil(totalItems / cappedLimit) with cappedLimit = min(limit, 100). *)
Definition spec_totalPages (totalItems : nat) (limit : jsnum) : jsnum :=
  JsNum.div_ceil (Num (Z.of_nat totalItems)) (JsNum.min limit (Num 100)).

(** ** Sample data *)

Definition stat_block (hp attack defense specialAttack specialDefense speed : Z)
    : gmap string jsval :=
  <["hp" := JNum hp]> (<["attack" := JNum attack]> (<["defense" := JNum defense]>
  (<["specialAttack" := JNum specialAttack]>
  (<["specialDefense" := JNum specialDefense]> (<["speed" := JNum speed]> ∅))))).

(** The stat block of the README's example. *)
Definition bulbasaur_stats : gmap string jsval := stat_block 45 49 49 65 65 45.

Definition bulbasaur (stats : jsval) : PokemonData :=
  {| d_name := Some "Bulbasaur"; d_species := Some "Seed Pokémon";
     d_types := Some ["Grass"; "Poison"]; d_baseStats := Some stats;
     d_generation := Some 1;
     d_description := Some "A strange seed was planted on its back at birth." |}.

Definition pikachu : PokemonData :=
  {| d_name := Some "Pikachu"; d_species := Some "Mouse Pokémon";
     d_types := Some ["Electric"];
     d_baseStats := Some (JObj (stat_block 35 55 40 50 50 90));
     d_generation := Some 1;
     d_description := Some "It keeps its tail raised to monitor its surroundings." |}.

Definition empty_table : Table := {| rows := []; next_id := 1 |}.

(** The table after POSTing Bulbasaur and Pikachu. *)
Definition two_rows : Table :=
  (post_pokemon pikachu (post_pokemon (bulbasaur (JObj bulbasaur_stats)) empty_table).2).2.

(** A table of [n] rows with ids 1..n. *)
Fixpoint numbered_rows (n : nat) : list Pokemon.t :=
  match n with
  | O => []
  | S k => numbered_rows k
           ++ [Pokemon.mk (Z.of_nat n) "Ditto" "Transform Pokémon" ["Normal"]
                 JNull 1 "It can reconstitute its entire cellular structure."]
  end.

Definition numbered_table (n : nat) : Table :=
  {| rows := numbered_rows n; next_id := Z.of_nat n + 1 |}.

(** A table of [n] rows with ids 1..n and pairwise different names (for
    [n] up to 190). *)
Fixpoint unown_rows (n : nat) : list Pokemon.t :=
  match n with
  | O => []
  | S k => unown_rows k
           ++ [Pokemon.mk (Z.of_nat n)
                 ("Unown " ++ String (ascii_of_nat (64 + n)) "")
                 "Symbol Pokémon" ["Psychic"] JNull 2
                 "Its shape looks like an ancient letter."]
  end.

Definition unown_table (n : nat) : Table :=
  {| rows := unown_rows n; next_id := Z.of_nat n + 1 |}.

(** ** Well-formed tables, and the rows a list request ranges over *)

(** What the table's constraints maintain: the primary keys are unique and
    below the serial, and the names are unique. *)
Definition well_formed (t : Table) : Prop :=
  NoDup (Pokemon.id <$> rows t)
  /\ Forall (fun r => Pokemon.id r < next_id t) (rows t)
  /\ NoDup (Pokemon.name <$> rows t).

#[export] Instance well_formed_dec (t : Table) : Decision (well_formed t).
Proof. unfold well_formed. apply _. Defined.

(** The rows that satisfy the filters of a list request, in the requested
    order, before OFFSET and LIMIT cut a page out of them. *)
Definition list_sorted (query : gmap string string) (t : Table)
    : result (list Pokemon.t) :=
  matching ← findAll (buildWhereClause (list_filters query)) t;
  order_rows [(default "id" (query !! "sort"),
               toUpperCase (default "ASC" (query !! "order")))] matching.

(** What [pokemon.update] does to the rows: the row of the instance's id is
    replaced, every other row is kept. *)
Definition replace_row (k : Z) (p' : Pokemon.t) (l : list Pokemon.t) : list Pokemon.t :=
  List.map (fun r => if Pokemon.id r =? k then p' else r) l.

(** A request body that sets no attribute. *)
Definition empty_body : PokemonData :=
  {| d_name := None; d_species := None; d_types := None; d_baseStats := None;
     d_generation := None; d_description := None |}.

(** The instance after [pokemon.update(d)]: the attributes present in [d]
    replace the instance's. *)
Definition merged (p : Pokemon.t) (d : PokemonData) : Pokemon.t :=
  Pokemon.mk (Pokemon.id p)
    (default (Pokemon.name p) (d_name d))
    (default (Pokemon.species p) (d_species d))
    (default (Pokemon.types p) (d_types d))
    (default (Pokemon.baseStats p) (d_baseStats d))
    (default (Pokemon.generation p) (d_generation d))
    (default (Pokemon.description p) (d_description d)).

(** The body sets [baseStats] to null. *)
Definition null_stats (d : PokemonData) : bool :=
  match d_baseStats d with
  | Some JNull => true
  | _ => false
  end.

(** * Properties *)

(** ** parseInt and patterns on examples *)

Example parseInt_20 : parseInt "20" = Num 20.
Proof. reflexivity. Qed.

Example parseInt_abc : parseInt "abc" = NaN.
Proof. reflexivity. Qed.

Example parseInt_neg : parseInt " -5px" = Num (-5).
Proof. reflexivity. Qed.

Example parseInt_hex : parseInt "0x1f" = Num 31.
Proof. reflexivity. Qed.

Example parseInt_negzero : parseInt "-0" = NegZero.
Proof. reflexivity. Qed.

Example parseInt_nbsp :
  parseInt (String "194" (String "160" "7")) = Num 7.
Proof. vm_compute. reflexivity. Qed.

Example parseInt_empty : parseInt "" = NaN.
Proof. reflexivity. Qed.

Example ilike_pika : ilike "%pika%" "Pikachu" = true.
Proof. reflexivity. Qed.

Example ilike_no : ilike "%pika%" "Raichu" = false.
Proof. reflexivity. Qed.

Example ilike_underscore : ilike "%_%" "Raichu" = true.
Proof. reflexivity. Qed.

(** ** The stat total *)

Lemma sum_values_insert (o : gmap string jsval) (k : string) (v : jsval) :
  o !! k = None ->
  sum_values (<[k := v]> o) = sum_values o + number_or_zero v.
Proof.
  intros Hk. unfold sum_values.
  rewrite map_fold_insert_L; [reflexivity | | exact Hk].
  intros; lia.
Qed.

Lemma sum_values_delete (o : gmap string jsval) (k : string) (v : jsval) :
  o !! k = Some v ->
  sum_values o = sum_values (delete k o) + number_or_zero v.
Proof.
  intros Hk.
  rewrite <- (insert_delete_id o k v Hk) at 1.
  apply sum_values_insert, lookup_delete_eq.
Qed.

Lemma sum_values_stat_block (hp attack defense specialAttack specialDefense speed : Z) :
  sum_values (stat_block hp attack defense specialAttack specialDefense speed)
  = hp + attack + defense + specialAttack + specialDefense + speed.
Proof.
  unfold stat_block.
  repeat (rewrite sum_values_insert; [| vm_compute; reflexivity]).
  unfold sum_values. rewrite map_fold_empty. simpl. lia.
Qed.

Lemma with_total_object (d : PokemonData) (o : gmap string jsval) :
  d_baseStats d = Some (JObj o) ->
  d_baseStats (with_total d) = Some (JObj (<["total" := JNum (sum_values o)]> o)).
Proof. intros H. unfold with_total. rewrite H. reflexivity. Qed.

(** What POST stores and returns for a stat block [o]: its [total] is the
    sum of every numeric value of [o], whatever the keys. *)
Lemma post_pokemon_total (d : PokemonData) (o : gmap string jsval)
    (t t' : Table) (r : Response) :
  d_baseStats d = Some (JObj o) ->
  post_pokemon d t = (r, t') ->
  status r = 201 ->
  exists p, data_entity r = Some p
            /\ Pokemon.total p = Some (sum_values o)
            /\ rows t' = (rows t ++ [p])%list.
Proof.
  intros Hd Hpost Hst. unfold post_pokemon in Hpost.
  pose proof (with_total_object d o Hd) as Hw.
  unfold create in Hpost. rewrite Hw in Hpost. simpl in Hpost.
  destruct (d_name (with_total d)) as [n|];
    [| inversion Hpost; subst; discriminate].
  destruct (d_species (with_total d)) as [sp|];
    [| inversion Hpost; subst; discriminate].
  destruct (d_types (with_total d)) as [ty|];
    [| inversion Hpost; subst; discriminate].
  destruct (d_description (with_total d)) as [de|];
    [| inversion Hpost; subst; discriminate].
  destruct (name_taken n (rows t));
    [inversion Hpost; subst; discriminate |].
  inversion Hpost; subst; clear Hpost. eexists. split; [reflexivity |].
  split; [| reflexivity].
  unfold Pokemon.total. simpl. rewrite lookup_insert_eq. reflexivity.
Qed.

(** A numeric [total] sent by the client is one of the summed values. *)
Lemma sum_values_client_total (o : gmap string jsval) (n : Z) :
  o !! "total" = Some (JNum n) ->
  sum_values o = sum_values (delete "total" o) + n.
Proof. intros H. apply (sum_values_delete o "total" (JNum n) H). Qed.

(** Without a [total] and without other keys than the six stats, the
    recomputed total is the sum of the six. *)
Lemma recompute_total_six (hp attack defense specialAttack specialDefense speed : Z) :
  recompute_total (JObj (stat_block hp attack defense specialAttack specialDefense speed))
  = JObj (<["total" := JNum (hp + attack + defense + specialAttack
                             + specialDefense + speed)]>
            (stat_block hp attack defense specialAttack specialDefense speed)).
Proof. unfold recompute_total. rewrite sum_values_stat_block. reflexivity. Qed.

(** C1. POST and PUT do not set [total] to the sum of the six named stats
    when the request's stat block already carries a [total]: the value sent
    is summed with the six.  For the README's stat block (six stats summing
    to 318) sent with "total": 318, the entity returned and stored by POST
    has total 636, and so has the entity returned by PUT. *)
Theorem client_total_is_added_to_the_sum :
  let stats := JObj (<["total" := JNum 318]> bulbasaur_stats) in
  let created := post_pokemon (bulbasaur stats) empty_table in
  let updated := put_pokemon "1" (bulbasaur stats) two_rows in
  sum_values bulbasaur_stats = 318
  /\ status created.1 = 201
  /\ Pokemon.total <$> data_entity created.1 = Some (Some 636)
  /\ Pokemon.total <$> rows created.2 = [Some 636]
  /\ status updated.1 = 200
  /\ Pokemon.total <$> data_entity updated.1 = Some (Some 636)
  /\ Pokemon.total <$> rows updated.2 = [Some 636; Some 320].
Proof. vm_compute. repeat split; reflexivity. Qed.

(** ** The pagination helper *)

Lemma paginate_lookup_offset (query : gmap string qval) (page limit : option jsnum) :
  paginate query page limit !! "offset"
  = Some (QNum (JsNum.mul (JsNum.sub (default (Num 1) page) (Num 1))
                          (default (Num 20) limit))).
Proof.
  unfold paginate. rewrite lookup_insert_ne by discriminate.
  apply lookup_insert_eq.
Qed.

Lemma paginate_lookup_limit (query : gmap string qval) (page limit : option jsnum) :
  paginate query page limit !! "limit"
  = Some (QNum (JsNum.min (default (Num 20) limit) (Num 100))).
Proof. unfold paginate. apply lookup_insert_eq. Qed.

Lemma paginate_lookup_other (query : gmap string qval) (page limit : option jsnum)
    (k : string) :
  k <> "offset" -> k <> "limit" ->
  paginate query page limit !! k = query !! k.
Proof.
  intros Ho Hl. unfold paginate.
  rewrite lookup_insert_ne by congruence.
  rewrite lookup_insert_ne by congruence. reflexivity.
Qed.

(** C10. [paginate] returns the query it was given with [offset] and
    [limit] added or replaced: every other field, [where] and [order] among
    them, is the input's, and the fields of the result are the input's
    together with these two. *)
Theorem paginate_frame (query : gmap string qval) (page limit : option jsnum) :
  (forall k : string, k <> "offset" -> k <> "limit" ->
     paginate query page limit !! k = query !! k)
  /\ paginate query page limit !! "where" = query !! "where"
  /\ paginate query page limit !! "order" = query !! "order"
  /\ dom (paginate query page limit) = {["offset"; "limit"]} ∪ dom query.
Proof.
  split; [intros k; apply paginate_lookup_other |].
  split; [apply paginate_lookup_other; discriminate |].
  split; [apply paginate_lookup_other; discriminate |].
  unfold paginate. rewrite !dom_insert_L. set_solver.
Qed.

Lemma paginate_frame_witness :
  paginate (<["where" := QWhere Where.empty]> ∅) (Some (Num 2)) (Some (Num 500))
    !! "where" = Some (QWhere Where.empty).
Proof.
  destruct (paginate_frame (<["where" := QWhere Where.empty]> ∅)
              (Some (Num 2)) (Some (Num 500))) as [H _].
  rewrite (H "where"); [reflexivity | done | done].
Defined.

(** *** Arithmetic on numbers that denote integers *)

Lemma int_of_mk (neg : bool) (z : Z) : JsNum.int_of (JsNum.mk neg z) = Some z.
Proof.
  unfold JsNum.mk. destruct (z =? 0) eqn:E; [| reflexivity].
  apply Z.eqb_eq in E. subst. destruct neg; reflexivity.
Qed.

(** Up to 2^53 every integer is a double: nothing is rounded. *)
Lemma round_mag_exact (a : Z) : 0 <= a <= 2 ^ 53 -> JsNum.round_mag a = a.
Proof.
  intros Ha. unfold JsNum.round_mag.
  destruct (a <? 2 ^ 53) eqn:E; [reflexivity |].
  apply Z.ltb_ge in E. assert (a = 2 ^ 53) as -> by lia.
  vm_compute. reflexivity.
Qed.

Lemma of_Z_exact (neg : bool) (z : Z) :
  Z.abs z <= 2 ^ 53 -> JsNum.of_Z neg z = JsNum.mk neg z.
Proof.
  intros Hz. unfold JsNum.of_Z. rewrite round_mag_exact by lia.
  destruct (2 ^ 1024 <=? Z.abs z) eqn:E.
  - apply Z.leb_le in E. assert (2 ^ 53 < 2 ^ 1024) by reflexivity. lia.
  - replace (Z.sgn z * Z.abs z) with z by (destruct z; simpl; lia).
    reflexivity.
Qed.

Lemma int_of_sub_one (a : jsnum) (x : Z) :
  JsNum.int_of a = Some x -> Z.abs (x - 1) <= 2 ^ 53 ->
  JsNum.int_of (JsNum.sub a (Num 1)) = Some (x - 1).
Proof.
  intros Ha Hx. destruct a; simpl in Ha; inversion Ha; subst.
  - unfold JsNum.sub. rewrite of_Z_exact by exact Hx. apply int_of_mk.
  - reflexivity.
Qed.

Lemma int_of_mul (a b : jsnum) (x y : Z) :
  JsNum.int_of a = Some x -> JsNum.int_of b = Some y ->
  Z.abs (x * y) <= 2 ^ 53 ->
  JsNum.int_of (JsNum.mul a b) = Some (x * y).
Proof.
  intros Ha Hb Hxy.
  destruct a, b; simpl in Ha, Hb; inversion Ha; inversion Hb; subst;
    unfold JsNum.mul; cbn [JsNum.int_of];
    rewrite of_Z_exact by exact Hxy; apply int_of_mk.
Qed.

Lemma int_of_min_100 (a : jsnum) (x : Z) :
  JsNum.int_of a = Some x ->
  JsNum.int_of (JsNum.min a (Num 100)) = Some (Z.min x 100).
Proof. destruct a; simpl; intros H; inversion H; subst; reflexivity. Qed.

(** Whatever the requested limit, the LIMIT that reaches the store is at
    most 100 when the store accepts it. *)
Lemma sql_count_min_100 (limit : jsnum) (n : nat) :
  sql_count (JsNum.min limit (Num 100)) = Ok n -> (n <= 100)%nat.
Proof.
  unfold sql_count.
  destruct limit as [z | | | |]; simpl; try discriminate.
  - destruct (Z.min z 100 <? 0); [discriminate |].
    destruct (2 ^ 63 <=? Z.min z 100); [discriminate |].
    intros H; inversion H; subst. lia.
  - intros H; inversion H; subst. lia.
  - intros H; inversion H; subst. lia.
Qed.

(** *** What findAndCountAll returns *)

Lemma insert_by_perm (le : Pokemon.t -> Pokemon.t -> bool) (x : Pokemon.t)
    (l : list Pokemon.t) :
  insert_by le x l ≡ₚ x :: l.
Proof.
  induction l as [| y l IH]; simpl; [reflexivity |].
  destruct (le x y); [reflexivity |].
  rewrite IH. apply Permutation_swap.
Qed.

Lemma sort_by_perm (le : Pokemon.t -> Pokemon.t -> bool) (l : list Pokemon.t) :
  sort_by le l ≡ₚ l.
Proof.
  induction l as [| x l IH]; simpl; [reflexivity |].
  rewrite insert_by_perm. rewrite IH. reflexivity.
Qed.

Lemma order_rows_perm (order : list (string * string)) (l l' : list Pokemon.t) :
  order_rows order l = Ok l' -> l' ≡ₚ l.
Proof.
  revert l'. unfold order_rows.
  induction order as [| [col dir] order IH]; simpl; intros l' H.
  - inversion H; subst. reflexivity.
  - destruct (fold_right _ _ order) as [l1 | e]; simpl in H; [| discriminate].
    specialize (IH l1 eq_refl).
    destruct (column_le col) as [le |]; [| discriminate].
    destruct (order_direction dir) as [[] |]; [| | discriminate];
      inversion H; subst; rewrite sort_by_perm; exact IH.
Qed.

Lemma findAll_ok (w : Where.t) (t : Table) (l : list Pokemon.t) :
  findAll w t = Ok l -> l = List.filter (matches w) (rows t).
Proof.
  unfold findAll. destruct (where_operands w); simpl; [| discriminate].
  intros H; inversion H; reflexivity.
Qed.

(** The rows of a page are taken from the rows that satisfy the where
    object, the count is the number of those, and the store has accepted
    the OFFSET and the LIMIT. *)
Lemma findAndCountAll_ok (options : gmap string qval) (t : Table)
    (count : nat) (found : list Pokemon.t) :
  findAndCountAll options t = Ok (count, found) ->
  let w := match options !! "where" with
           | Some (QWhere w) => w
           | _ => Where.empty
           end in
  count = length (List.filter (matches w) (rows t))
  /\ (forall p, p ∈ found -> p ∈ List.filter (matches w) (rows t))
  /\ (forall n, options !! "limit" = Some (QNum n) ->
        exists k, sql_count n = Ok k /\ (length found <= k)%nat)
  /\ (forall n, options !! "offset" = Some (QNum n) ->
        exists k, sql_count n = Ok k).
Proof.
  intros H w. unfold findAndCountAll in H. fold w in H.
  destruct (findAll w t) as [matching | e] eqn:Hm; simpl in H; [| discriminate].
  apply findAll_ok in Hm. subst matching.
  destruct (order_rows _ _) as [sorted | e] eqn:Hs; simpl in H; [| discriminate].
  apply order_rows_perm in Hs.
  match type of H with
  | context [mbind _ ?o] => destruct o as [offset | e] eqn:Ho
  end; simpl in H; [| discriminate].
  assert (Hoff : forall n, options !! "offset" = Some (QNum n) ->
                   exists k, sql_count n = Ok k).
  { intros n Hn. rewrite Hn in Ho. eauto. }
  assert (Hsub : forall l : list Pokemon.t, (forall p, p ∈ drop offset l -> p ∈ l)).
  { intros l p Hp. apply list_elem_of_lookup in Hp as [i Hi].
    rewrite lookup_drop in Hi. apply list_elem_of_lookup. eauto. }
  destruct (options !! "limit") as [[ | | n | ] |] eqn:Hl;
    try (inversion H; subst; split; [reflexivity |];
         split; [| split; [intros ? ?; discriminate | exact Hoff]];
         intros p Hp; rewrite <- Hs; apply Hsub; exact Hp).
  destruct (sql_count n) as [k | e] eqn:Hk; simpl in H; [| discriminate].
  inversion H; subst. split; [reflexivity |]. split; [| split; [| exact Hoff]].
  - intros p Hp. rewrite <- Hs. apply Hsub.
    apply list_elem_of_lookup in Hp as [i Hi].
    apply lookup_take_Some in Hi as [Hi _].
    apply list_elem_of_lookup. eauto.
  - intros n' Hn'. inversion Hn'; subst. exists k. split; [exact Hk |].
    rewrite length_take. lia.
Qed.

Lemma sql_count_ok (n : jsnum) (k : nat) :
  sql_count n = Ok k ->
  exists z, JsNum.int_of n = Some z /\ 0 <= z /\ k = Z.to_nat z.
Proof.
  unfold sql_count, sql_int.
  destruct (JsNum.int_of n) as [z |]; simpl; [| discriminate].
  destruct (z <? 0) eqn:E; [discriminate |].
  destruct (2 ^ 63 <=? z); [discriminate |].
  intros H; inversion H; subst. exists z. apply Z.ltb_ge in E. auto.
Qed.

Lemma list_options_limit (query : gmap string string) :
  list_options query !! "limit"
  = Some (QNum (JsNum.min (list_limit query) (Num 100))).
Proof. unfold list_options. apply paginate_lookup_limit. Qed.

Lemma list_options_offset (query : gmap string string) :
  list_options query !! "offset"
  = Some (QNum (JsNum.mul (JsNum.sub (list_page query) (Num 1)) (list_limit query))).
Proof. unfold list_options. apply paginate_lookup_offset. Qed.

Lemma list_options_where (query : gmap string string) :
  list_options query !! "where"
  = Some (QWhere (buildWhereClause (list_filters query))).
Proof.
  unfold list_options. rewrite paginate_lookup_other by done.
  rewrite lookup_insert_ne by done. apply lookup_insert_eq.
Qed.

(** A list response never carries more than 100 entities. *)
Lemma get_pokemon_list_at_most_100 (query : gmap string string) (t : Table) :
  (length (data_list (get_pokemon_list query t)) <= 100)%nat.
Proof.
  unfold get_pokemon_list.
  destruct (findAndCountAll (list_options query) t) as [[count found] | e] eqn:H;
    [| simpl; lia].
  apply findAndCountAll_ok in H as (_ & _ & Hlim & _).
  destruct (Hlim _ (list_options_limit query)) as (k & Hk & Hlen).
  apply sql_count_min_100 in Hk. unfold data_list. simpl. lia.
Qed.

(** C3, as the claim states it: for page 10^19 and limit 20 the offset is
    not (page - 1) * limit.  The subtraction rounds 10^19 - 1 to the double
    10^19, and the offset that [paginate] produces is 2 * 10^20. *)
Lemma huge_page_offset_is_rounded :
  JsNum.int_of (parseInt "10000000000000000000") = Some (10 ^ 19)
  /\ JsNum.int_of (parseInt "20") = Some 20
  /\ paginate ∅ (Some (parseInt "10000000000000000000")) (Some (parseInt "20"))
       !! "offset" = Some (QNum (Num (2 * 10 ^ 20)))
  /\ 2 * 10 ^ 20 <> (10 ^ 19 - 1) * 20.
Proof. vm_compute. repeat split; try reflexivity. discriminate. Qed.

(** C3, amended.  For every page >= 1 and every limit such that the page
    and the product (page - 1) * limit do not exceed 2^53 in magnitude,
    [paginate] yields offset = (page - 1) * limit and
    limit = min(limit, 100); and every list response, whatever the
    requested page and limit, holds at most 100 items. *)
Theorem paginate_offset_and_cap (query : gmap string qval) (page limit : jsnum)
    (p l : Z) :
  JsNum.int_of page = Some p ->
  JsNum.int_of limit = Some l ->
  1 <= p ->
  p <= 2 ^ 53 ->
  Z.abs ((p - 1) * l) <= 2 ^ 53 ->
  (exists off lim,
      paginate query (Some page) (Some limit) !! "offset" = Some (QNum off)
      /\ JsNum.int_of off = Some ((p - 1) * l)
      /\ paginate query (Some page) (Some limit) !! "limit" = Some (QNum lim)
      /\ JsNum.int_of lim = Some (Z.min l 100))
  /\ (forall (q : gmap string string) (t : Table),
        (length (data_list (get_pokemon_list q t)) <= 100)%nat).
Proof.
  intros Hp Hl Hp1 Hp2 Hpl. split.
  - eexists _, _. split; [apply paginate_lookup_offset |].
    split; [| split; [apply paginate_lookup_limit |]]; simpl.
    + apply int_of_mul; [apply int_of_sub_one; [exact Hp | lia] | exact Hl | exact Hpl].
    + apply int_of_min_100. exact Hl.
  - apply get_pokemon_list_at_most_100.
Qed.

Lemma paginate_offset_and_cap_witness :
  (exists off lim,
      paginate ∅ (Some (Num 3)) (Some (Num 500)) !! "offset" = Some (QNum off)
      /\ JsNum.int_of off = Some 1000
      /\ paginate ∅ (Some (Num 3)) (Some (Num 500)) !! "limit" = Some (QNum lim)
      /\ JsNum.int_of lim = Some 100)
  /\ (length (data_list (get_pokemon_list {["limit" := "500"]} (numbered_table 250)))
      <= 100)%nat.
Proof.
  destruct (paginate_offset_and_cap ∅ (Num 3) (Num 500) 3 500) as [H1 H2];
    [reflexivity | reflexivity | lia | vm_compute; discriminate
    | vm_compute; discriminate |].
  split; [exact H1 | apply H2].
Defined.

Example limit_500_returns_100 :
  length (data_list (get_pokemon_list {["limit" := "500"]} (numbered_table 250)))
  = 100%nat.
Proof. vm_compute. reflexivity. Qed.

(** ** The list handler *)

Lemma list_filters_lookup (query : gmap string string) (k : string) :
  k <> "page" -> k <> "limit" -> k <> "sort" -> k <> "order" ->
  list_filters query !! k = query !! k.
Proof.
  intros. unfold list_filters.
  rewrite !lookup_delete_ne by congruence. reflexivity.
Qed.

(** The list handler answers 200 or 500 and nothing else. *)
Lemma get_pokemon_list_status (query : gmap string string) (t : Table) :
  status (get_pokemon_list query t) = 200
  \/ status (get_pokemon_list query t) = 500.
Proof.
  unfold get_pokemon_list.
  destruct (findAndCountAll _ _) as [[count found] | e]; simpl; auto.
Qed.

Lemma get_pokemon_list_throw (query : gmap string string) (t : Table) (e : dberror) :
  findAndCountAll (list_options query) t = Throw e ->
  get_pokemon_list query t = internal_error e.
Proof. intros H. unfold get_pokemon_list. rewrite H. reflexivity. Qed.

(** The pagination block of a list response, field by field. *)
Lemma get_pokemon_list_pagination (query : gmap string string) (t : Table)
    (pg : Pagination) :
  pagination_of (get_pokemon_list query t) = Some pg ->
  currentPage pg = list_page query
  /\ itemsPerPage pg = list_limit query
  /\ totalPages pg = JsNum.div_ceil (Num (Z.of_nat (totalItems pg))) (list_limit query)
  /\ hasNextPage pg = JsNum.lt (currentPage pg) (totalPages pg)
  /\ hasPreviousPage pg = JsNum.gt (currentPage pg) (Num 1).
Proof.
  unfold get_pokemon_list.
  destruct (findAndCountAll _ _) as [[count found] | e];
    unfold pagination_of; simpl; intros H; inversion H; subst; simpl; auto.
Qed.

(** Up to the cap, the page count is the specification's. *)
Lemma totalPages_within_cap (n : nat) (limit : jsnum) (l : Z) :
  JsNum.int_of limit = Some l -> l <= 100 ->
  spec_totalPages n limit = JsNum.div_ceil (Num (Z.of_nat n)) limit.
Proof.
  intros Hl Hle. unfold spec_totalPages. f_equal.
  destruct limit; simpl in Hl; inversion Hl; subst; simpl; [| reflexivity].
  f_equal. lia.
Qed.

Example pagination_45_items_page_1 :
  let r := get_pokemon_list {["limit" := "20"]} (numbered_table 45) in
  length (data_list r) = 20%nat
  /\ pagination_of r
     = Some {| currentPage := Num 1; totalPages := Num 3; totalItems := 45;
               itemsPerPage := Num 20; hasNextPage := true;
               hasPreviousPage := false |}.
Proof. vm_compute. split; reflexivity. Qed.

Example pagination_45_items_page_3 :
  let r := get_pokemon_list (<["page" := "3"]> {["limit" := "20"]}) (numbered_table 45) in
  length (data_list r) = 5%nat
  /\ pagination_of r
     = Some {| currentPage := Num 3; totalPages := Num 3; totalItems := 45;
               itemsPerPage := Num 20; hasNextPage := false;
               hasPreviousPage := true |}.
Proof. vm_compute. split; reflexivity. Qed.

(** C2. The page count of GET /api/v1/pokemon is not
    ceil(totalItems / min(limit, 100)): it is computed from the limit as
    requested, while the rows are cut at 100.  With limit=500 over 250 rows
    the response holds 100 rows and reports totalPages = 1 and
    hasNextPage = false, where the stated formula gives 3 pages. *)
Theorem total_pages_ignore_the_cap :
  let r := get_pokemon_list {["limit" := "500"]} (numbered_table 250) in
  status r = 200
  /\ length (data_list r) = 100%nat
  /\ pagination_of r
     = Some {| currentPage := Num 1; totalPages := Num 1; totalItems := 250;
               itemsPerPage := Num 500; hasNextPage := false;
               hasPreviousPage := false |}
  /\ spec_totalPages 250 (Num 500) = Num 3.
Proof. vm_compute. repeat split; reflexivity. Qed.

(** C4, as the claim states it: generation=abc is not answered 400. *)
Lemma generation_abc_is_not_400 :
  status (get_pokemon_list {["generation" := "abc"]} two_rows) <> 400.
Proof. vm_compute. discriminate. Qed.

(** C4, amended.  GET /api/v1/pokemon validates no query parameter and
    never answers 400: its status is 200 or 500.  A non-empty generation
    that [parseInt] cannot read reaches the store as NaN, the store call
    throws, and the answer is 500 with success false.  An empty generation
    is dropped by the translator like an absent one. *)
Theorem non_numeric_generation_is_500 (query : gmap string string) (t : Table) :
  (status (get_pokemon_list query t) = 200
   \/ status (get_pokemon_list query t) = 500)
  /\ (forall g : string,
        query !! "generation" = Some g -> g <> "" -> parseInt g = NaN ->
        status (get_pokemon_list query t) = 500
        /\ success (get_pokemon_list query t) = false)
  /\ (query !! "generation" = Some "" ->
      Where.generation (buildWhereClause (list_filters query)) = None).
Proof.
  split; [apply get_pokemon_list_status |]. split.
  - intros g Hg Hne Hnan.
    assert (Hw : where_operands (buildWhereClause (list_filters query))
                 = Throw (DatabaseError "column does not exist")).
    { unfold where_operands, buildWhereClause. simpl.
      rewrite (list_filters_lookup query "generation") by done. rewrite Hg.
      destruct g; [congruence |]. simpl. rewrite Hnan. reflexivity. }
    assert (Hf : findAndCountAll (list_options query) t
                 = Throw (DatabaseError "column does not exist")).
    { unfold findAndCountAll. rewrite list_options_where.
      unfold findAll. rewrite Hw. reflexivity. }
    rewrite (get_pokemon_list_throw _ _ _ Hf). split; reflexivity.
  - intros Hg. unfold buildWhereClause. simpl.
    rewrite (list_filters_lookup query "generation") by done. rewrite Hg.
    reflexivity.
Qed.

Lemma non_numeric_generation_is_500_witness :
  status (get_pokemon_list {["generation" := "abc"]} two_rows) = 500
  /\ success (get_pokemon_list {["generation" := "abc"]} two_rows) = false.
Proof.
  destruct (non_numeric_generation_is_500 {["generation" := "abc"]} two_rows)
    as (_ & H & _).
  apply (H "abc"); [reflexivity | discriminate | reflexivity].
Defined.

(** C5, as the claim states it: limit=0 is neither rejected nor replaced by
    the default 20.  The request succeeds and the limit that reaches the
    store is 0; likewise page=0 gives the offset -20. *)
Lemma limit_zero_is_used_as_is :
  success (get_pokemon_list {["limit" := "0"]} two_rows) = true
  /\ status (get_pokemon_list {["limit" := "0"]} two_rows) = 200
  /\ list_options {["limit" := "0"]} !! "limit" = Some (QNum (Num 0))
  /\ list_options {["limit" := "0"]} !! "limit" <> Some (QNum (Num 20))
  /\ list_options {["page" := "0"]} !! "offset" = Some (QNum (Num (-20))).
Proof. vm_compute. repeat split; try reflexivity. discriminate. Qed.

(** C5, amended.  The list handler uses [page] and [limit] as parsed,
    without clamping and without a check of its own, also when they are
    zero or negative: as long as page - 1 and (page - 1) * limit do not
    exceed 2^53 in magnitude, the query options carry
    offset = (page - 1) * limit and limit = min(limit, 100).  When that
    offset or that limit is negative the store refuses the query and the
    answer is 500; with limit = 0 no row is returned. *)
Theorem page_and_limit_used_as_parsed (query : gmap string string) (t : Table)
    (p l : Z) :
  JsNum.int_of (list_page query) = Some p ->
  JsNum.int_of (list_limit query) = Some l ->
  Z.abs (p - 1) <= 2 ^ 53 ->
  Z.abs ((p - 1) * l) <= 2 ^ 53 ->
  (exists off lim,
      list_options query !! "offset" = Some (QNum off)
      /\ JsNum.int_of off = Some ((p - 1) * l)
      /\ list_options query !! "limit" = Some (QNum lim)
      /\ JsNum.int_of lim = Some (Z.min l 100))
  /\ ((p - 1) * l < 0 \/ l < 0 -> status (get_pokemon_list query t) = 500)
  /\ (l = 0 -> data_list (get_pokemon_list query t) = []).
Proof.
  intros Hp Hl Hp1 Hpl.
  assert (Hoff : JsNum.int_of (JsNum.mul (JsNum.sub (list_page query) (Num 1))
                                         (list_limit query))
                 = Some ((p - 1) * l)).
  { apply int_of_mul; [apply int_of_sub_one; assumption | exact Hl | exact Hpl]. }
  assert (Hlim : JsNum.int_of (JsNum.min (list_limit query) (Num 100))
                 = Some (Z.min l 100)).
  { apply int_of_min_100. exact Hl. }
  split; [| split].
  - eexists _, _. split; [apply list_options_offset |].
    split; [exact Hoff |]. split; [apply list_options_limit | exact Hlim].
  - intros Hneg.
    destruct (findAndCountAll (list_options query) t) as [[count found] | e] eqn:H.
    + exfalso.
      apply findAndCountAll_ok in H as (_ & _ & Hl' & Ho').
      destruct (Ho' _ (list_options_offset query)) as (k & Hk).
      destruct (Hl' _ (list_options_limit query)) as (k' & Hk' & _).
      apply sql_count_ok in Hk as (z & Hz & Hz0 & _).
      apply sql_count_ok in Hk' as (z' & Hz' & Hz0' & _).
      rewrite Hoff in Hz. rewrite Hlim in Hz'.
      inversion Hz; inversion Hz'; subst. lia.
    + rewrite (get_pokemon_list_throw _ _ _ H). reflexivity.
  - intros Hzero. unfold get_pokemon_list.
    destruct (findAndCountAll (list_options query) t) as [[count found] | e] eqn:H;
      [| reflexivity].
    apply findAndCountAll_ok in H as (_ & _ & Hl' & _).
    destruct (Hl' _ (list_options_limit query)) as (k & Hk & Hlen).
    apply sql_count_ok in Hk as (z & Hz & _ & ->).
    rewrite Hlim in Hz. inversion Hz; subst.
    unfold data_list. simpl.
    destruct found; [reflexivity | simpl in Hlen; lia].
Qed.

Lemma page_and_limit_used_as_parsed_witness :
  (exists off lim,
      list_options {["page" := "0"]} !! "offset" = Some (QNum off)
      /\ JsNum.int_of off = Some (-20)
      /\ list_options {["page" := "0"]} !! "limit" = Some (QNum lim)
      /\ JsNum.int_of lim = Some 20)
  /\ status (get_pokemon_list {["page" := "0"]} two_rows) = 500.
Proof.
  destruct (page_and_limit_used_as_parsed {["page" := "0"]} two_rows 0 20)
    as (H1 & H2 & _);
    [reflexivity | reflexivity | vm_compute; discriminate
    | vm_compute; discriminate |].
  split; [exact H1 | apply H2; left; lia].
Defined.

(** ** Lookup and deletion by id *)

Lemma elem_of_filter_bool (f : Pokemon.t -> bool) (l : list Pokemon.t) (p : Pokemon.t) :
  p ∈ List.filter f l <-> p ∈ l /\ f p = true.
Proof. rewrite !list_elem_of_In. apply filter_In. Qed.

Lemma find_absent (k : Z) (l : list Pokemon.t) :
  (forall r, r ∈ l -> Pokemon.id r <> k) ->
  List.find (fun r => Pokemon.id r =? k) l = None.
Proof.
  intros H. destruct (List.find _ l) as [r |] eqn:E; [| reflexivity].
  apply find_some in E as [Hin Hk]. apply Z.eqb_eq in Hk.
  apply list_elem_of_In in Hin. destruct (H r Hin Hk).
Qed.






Example delete_then_get :
  status (delete_pokemon "1" two_rows).1 = 200
  /\ status (get_pokemon "1" two_rows) = 200
  /\ status (get_pokemon "1" (delete_pokemon "1" two_rows).2) = 404.
Proof. vm_compute. repeat split; reflexivity. Qed.

(** ** ILIKE patterns and containment *)

Lemma like_percent_unfold (p s : string) :
  like (String "%" p) s
  = like p s || match s with
                | EmptyString => false
                | String _ s' => like (String "%" p) s'
                end.
Proof. destruct s; reflexivity. Qed.

Lemma like_percent_any (s : string) : like "%" s = true.
Proof.
  induction s as [| c s IH]; [reflexivity |].
  rewrite like_percent_unfold, IH. apply orb_true_r.
Qed.

Lemma like_two_percent_any (s : string) : like "%%" s = true.
Proof. rewrite like_percent_unfold, like_percent_any. reflexivity. Qed.

Lemma like_literal_prefix (q s : string) :
  wildcard_free q = true ->
  like (String.append q "%") s = starts_with q s.
Proof.
  revert s. induction q as [| c q IH]; intros s Hq.
  - simpl. rewrite like_percent_any. destruct s; reflexivity.
  - simpl in Hq. rewrite !andb_true_iff, !negb_true_iff in Hq.
    destruct Hq as [[[H1 H2] H3] Hq].
    simpl. rewrite H1, H2, H3.
    destruct s as [| d s]; [reflexivity |].
    rewrite (IH s Hq). reflexivity.
Qed.

Lemma like_contains (q s : string) :
  wildcard_free q = true ->
  like (String.append "%" (String.append q "%")) s = contains q s.
Proof.
  intros Hq. change (String.append "%" (String.append q "%"))
    with (String "%" (String.append q "%")).
  induction s as [| c s IH].
  - rewrite like_percent_unfold, like_literal_prefix by exact Hq.
    simpl. reflexivity.
  - rewrite like_percent_unfold, like_literal_prefix, IH by exact Hq.
    reflexivity.
Qed.

Lemma toLowerCase_app (a b : string) :
  toLowerCase (String.append a b) = String.append (toLowerCase a) (toLowerCase b).
Proof.
  unfold toLowerCase. induction a as [| c a IH]; simpl; [reflexivity |].
  rewrite IH. reflexivity.
Qed.

Lemma lower_ascii_special (c : ascii) :
  Ascii.eqb (lower_ascii c) "%" = Ascii.eqb c "%"
  /\ Ascii.eqb (lower_ascii c) "_" = Ascii.eqb c "_"
  /\ Ascii.eqb (lower_ascii c) "092" = Ascii.eqb c "092".
Proof.
  destruct c as [[] [] [] [] [] [] [] []]; vm_compute; repeat split.
Qed.

Lemma wildcard_free_toLowerCase (q : string) :
  wildcard_free (toLowerCase q) = wildcard_free q.
Proof.
  unfold toLowerCase. induction q as [| c q IH]; simpl; [reflexivity |].
  destruct (lower_ascii_special c) as (-> & -> & ->). rewrite IH. reflexivity.
Qed.

(** For a [q] without LIKE's special characters, ILIKE '%q%' is
    case-insensitive containment. *)
Lemma ilike_contains_ci (q s : string) :
  wildcard_free q = true ->
  ilike (String.append "%" (String.append q "%")) s = contains_ci q s.
Proof.
  intros Hq. unfold ilike, contains_ci.
  rewrite !toLowerCase_app.
  change (toLowerCase "%") with "%".
  apply like_contains. rewrite wildcard_free_toLowerCase. exact Hq.
Qed.

Lemma ilike_two_percent_any (s : string) : ilike "%%" s = true.
Proof. unfold ilike. apply like_two_percent_any. Qed.

(** ** The query translator *)

Lemma buildWhereClause_ignores (filters : gmap string string) (k v : string) :
  k <> "name" -> k <> "type" -> k <> "generation" ->
  k <> "minStats" -> k <> "maxStats" ->
  buildWhereClause (<[k := v]> filters) = buildWhereClause filters.
Proof.
  intros. unfold buildWhereClause.
  rewrite !lookup_insert_ne by congruence. reflexivity.
Qed.



Lemma get_search_data (query : gmap string string) (t : Table) :
  where_operands (search_where query) = Ok tt ->
  status (get_search query t) = 200
  /\ data_list (get_search query t)
     = List.filter (matches (search_where query)) (rows t).
Proof.
  intros H. unfold get_search, findAll. rewrite H. split; reflexivity.
Qed.



Example name_underscore_listing :
  Pokemon.name <$> data_list (get_pokemon_list {["name" := "_"]} two_rows)
  = ["Bulbasaur"; "Pikachu"]
  /\ List.filter (fun p => contains_ci "_" (Pokemon.name p)) (rows two_rows) = [].
Proof. vm_compute. split; reflexivity. Qed.



Example filter_type_and_generation :
  Pokemon.name <$> data_list (get_search {["type" := "Electric"]} two_rows) = ["Pikachu"]
  /\ Pokemon.name <$> data_list (get_search {["generation" := "1"]} two_rows)
     = ["Bulbasaur"; "Pikachu"]
  /\ Pokemon.name <$> data_list
       (get_search (<["type" := "Electric"]> {["generation" := "1"]}) two_rows)
     = ["Pikachu"]
  /\ Pokemon.name <$> data_list
       (get_pokemon_list (<["type" := "Poison"]> {["generation" := "1"]}) two_rows)
     = ["Bulbasaur"].
Proof. vm_compute. repeat split; reflexivity. Qed.

(** ** The search handler *)

Lemma search_where_ignores (query : gmap string string) (k v : string) :
  k <> "q" -> k <> "name" -> k <> "type" -> k <> "generation" ->
  k <> "minStats" -> k <> "maxStats" ->
  search_where (<[k := v]> query) = search_where query.
Proof.
  intros Hq **. unfold search_where.
  rewrite lookup_insert_ne by congruence.
  rewrite delete_insert_ne by congruence.
  rewrite buildWhereClause_ignores by assumption. reflexivity.
Qed.

(** C9. GET /api/v1/search takes no notice of [page] and [limit]: with or
    without them the status and the entities returned are the same, and a
    successful response holds every row that satisfies the predicate, none
    skipped and none cut off. *)
Theorem search_ignores_page_and_limit (query : gmap string string) (t : Table)
    (page limit : string) :
  status (get_search (<["page" := page]> (<["limit" := limit]> query)) t)
  = status (get_search query t)
  /\ data_list (get_search (<["page" := page]> (<["limit" := limit]> query)) t)
     = data_list (get_search query t)
  /\ (status (get_search query t) = 200 ->
      data_list (get_search query t)
      = List.filter (matches (search_where query)) (rows t)).
Proof.
  assert (Hw : search_where (<["page" := page]> (<["limit" := limit]> query))
               = search_where query).
  { rewrite !search_where_ignores by discriminate. reflexivity. }
  unfold get_search. rewrite Hw.
  destruct (findAll (search_where query) t) as [results | e] eqn:Hf; simpl.
  - apply findAll_ok in Hf. subst. repeat split.
  - repeat split. discriminate.
Qed.

Lemma search_ignores_page_and_limit_witness :
  data_list (get_search {["type" := "Normal"]} (numbered_table 150))
  = List.filter (matches (search_where {["type" := "Normal"]}))
      (rows (numbered_table 150)).
Proof.
  destruct (search_ignores_page_and_limit {["type" := "Normal"]}
              (numbered_table 150) "2" "5") as (_ & _ & H).
  apply H. vm_compute. reflexivity.
Defined.

Example search_is_not_paginated :
  length (data_list (get_search (<["page" := "2"]> {["limit" := "5"]})
                       (numbered_table 150))) = 150%nat.
Proof. vm_compute. reflexivity. Qed.

(** *** Creation, as the search sees it *)

Lemma with_total_other_fields (d : PokemonData) :
  d_name (with_total d) = d_name d
  /\ d_species (with_total d) = d_species d
  /\ d_types (with_total d) = d_types d
  /\ d_generation (with_total d) = d_generation d
  /\ d_description (with_total d) = d_description d.
Proof.
  unfold with_total. destruct (d_baseStats d) as [v |]; [| repeat split].
  destruct (is_object v); repeat split.
Qed.

Lemma post_pokemon_created (d : PokemonData) (t t' : Table) (r : Response) :
  post_pokemon d t = (r, t') ->
  status r = 201 ->
  exists p, data_entity r = Some p
            /\ Some (Pokemon.name p) = d_name d
            /\ rows t' = (rows t ++ [p])%list.
Proof.
  intros Hpost Hst. unfold post_pokemon in Hpost.
  destruct (with_total_other_fields d) as (Hn & _).
  unfold create in Hpost. rewrite Hn in Hpost.
  destruct (d_name d) as [n |];
    [| inversion Hpost; subst; discriminate].
  destruct (d_species (with_total d)) as [sp |];
    [| inversion Hpost; subst; discriminate].
  destruct (d_types (with_total d)) as [ty |];
    [| inversion Hpost; subst; discriminate].
  destruct (non_null (d_baseStats (with_total d))) as [bs |];
    [| inversion Hpost; subst; discriminate].
  destruct (d_description (with_total d)) as [de |];
    [| inversion Hpost; subst; discriminate].
  destruct (name_taken n (rows t));
    [inversion Hpost; subst; discriminate |].
  inversion Hpost; subst; clear Hpost. eexists. repeat split.
Qed.

Lemma search_where_operands (query : gmap string string) :
  where_operands (search_where query)
  = where_operands (buildWhereClause (delete "q" query)).
Proof.
  unfold search_where. destruct (truthy (query !! "q")); reflexivity.
Qed.

(** The predicate of the search: the filters, and the pattern '%q%' tried
    on name, species and description. *)
Lemma search_where_matches (query : gmap string string) (q : string) (p : Pokemon.t) :
  query !! "q" = Some q ->
  matches (search_where query) p
  = matches (buildWhereClause (delete "q" query)) p
    && (ilike (String.append "%" (String.append q "%")) (Pokemon.name p)
        || ilike (String.append "%" (String.append q "%")) (Pokemon.species p)
        || ilike (String.append "%" (String.append q "%")) (Pokemon.description p)).
Proof.
  intros Hq. unfold search_where. rewrite Hq.
  destruct q as [| c q]; simpl.
  - rewrite !ilike_two_percent_any. rewrite andb_true_r. reflexivity.
  - unfold matches. simpl. rewrite andb_true_r. reflexivity.
Qed.

(** C6, as the claim states it: with q = "_" the search returns both rows
    of the table although no name, species or description contains an
    underscore. *)
Lemma underscore_matches_without_being_contained :
  data_list (get_search {["q" := "_"]} two_rows)
  <> List.filter (spec_search_predicate {["q" := "_"]} "_") (rows two_rows).
Proof. vm_compute. discriminate. Qed.

Example underscore_search :
  Pokemon.name <$> data_list (get_search {["q" := "_"]} two_rows)
  = ["Bulbasaur"; "Pikachu"]
  /\ List.filter (spec_search_predicate {["q" := "_"]} "_") (rows two_rows) = [].
Proof. vm_compute. split; reflexivity. Qed.

(** C6, amended.  When [q] is present, GET /api/v1/search returns the rows
    that satisfy the translated filters and whose name, species or
    description matches the pattern '%q%' under ILIKE, in which the
    characters %, _ and backslash of [q] keep their pattern meaning; for a
    [q] without these characters the match is case-insensitive
    containment.  After a successful POST of a Pokemon named "Pikachu",
    the search q=pika returns it. *)
Theorem search_predicate (query : gmap string string) (t : Table) (q : string) :
  query !! "q" = Some q ->
  (where_operands (buildWhereClause (delete "q" query)) = Ok tt ->
     status (get_search query t) = 200
     /\ data_list (get_search query t)
        = List.filter
            (fun p =>
               matches (buildWhereClause (delete "q" query)) p
               && (ilike (String.append "%" (String.append q "%")) (Pokemon.name p)
                   || ilike (String.append "%" (String.append q "%")) (Pokemon.species p)
                   || ilike (String.append "%" (String.append q "%")) (Pokemon.description p)))
            (rows t))
  /\ (wildcard_free q = true ->
      forall s : string,
        ilike (String.append "%" (String.append q "%")) s = contains_ci q s)
  /\ (forall (d : PokemonData) (t0 t' : Table) (r : Response),
        d_name d = Some "Pikachu" ->
        post_pokemon d t0 = (r, t') ->
        status r = 201 ->
        exists p, data_entity r = Some p
                  /\ p ∈ data_list (get_search {["q" := "pika"]} t')).
Proof.
  intros Hq. split; [| split].
  - intros Hops.
    destruct (get_search_data query t) as [Hs Hd];
      [rewrite search_where_operands; exact Hops |].
    split; [exact Hs |]. rewrite Hd.
    apply filter_ext. intros p. apply search_where_matches. exact Hq.
  - intros Hw s. apply ilike_contains_ci. exact Hw.
  - intros d t0 t' r Hn Hpost Hst.
    destruct (post_pokemon_created d t0 t' r Hpost Hst) as (p & Hp & Hname & Hrows).
    exists p. split; [exact Hp |].
    destruct (get_search_data {["q" := "pika"]} t') as [_ ->];
      [vm_compute; reflexivity |].
    apply elem_of_filter_bool. split.
    + rewrite Hrows. apply elem_of_app. right. apply list_elem_of_singleton.
      reflexivity.
    + rewrite (search_where_matches {["q" := "pika"]} "pika" p) by reflexivity.
      rewrite Hn in Hname. inversion Hname as [Hpn]. rewrite Hpn.
      reflexivity.
Qed.

Lemma search_predicate_witness :
  status (get_search {["q" := "pika"]} two_rows) = 200
  /\ (forall s : string, ilike "%pika%" s = contains_ci "pika" s)
  /\ exists p, data_entity (post_pokemon pikachu empty_table).1 = Some p
               /\ p ∈ data_list (get_search {["q" := "pika"]}
                                   (post_pokemon pikachu empty_table).2).
Proof.
  destruct (search_predicate {["q" := "pika"]} two_rows "pika")
    as (H1 & H2 & H3); [reflexivity |].
  split; [apply H1; reflexivity |].
  split; [apply H2; reflexivity |].
  apply (H3 pikachu empty_table (post_pokemon pikachu empty_table).2
            (post_pokemon pikachu empty_table).1);
    reflexivity.
Defined.

(** * Further properties of the handlers *)

(** ** Creation *)

Lemma not_null_violations_with_total (d : PokemonData) :
  not_null_violations (with_total d) = not_null_violations d.
Proof.
  unfold not_null_violations, with_total.
  destruct (d_baseStats d) as [v |] eqn:E; [| rewrite E; reflexivity].
  destruct v; simpl; rewrite ?E; reflexivity.
Qed.

(** The three outcomes of [Pokemon.create]. *)
Lemma create_cases (d : PokemonData) (t : Table) :
  (not_null_violations d <> []
   /\ create d t = Throw (ValidationError (not_null_violations d)))
  \/ (not_null_violations d = []
      /\ exists n, d_name d = Some n /\ name_taken n (rows t) = true
                   /\ create d t = Throw UniqueConstraintError)
  \/ (not_null_violations d = []
      /\ exists p, create d t
                   = Ok (p, {| rows := rows t ++ [p]; next_id := next_id t + 1 |})
                   /\ Pokemon.id p = next_id t
                   /\ d_name d = Some (Pokemon.name p)
                   /\ name_taken (Pokemon.name p) (rows t) = false
                   /\ non_null (d_baseStats d) = Some (Pokemon.baseStats p)
                   /\ Pokemon.generation p = default 1 (d_generation d)).
Proof.
  unfold create, not_null_violations.
  destruct (d_name d) as [n |]; [| left; split; [discriminate | reflexivity]].
  destruct (d_species d) as [sp |]; [| left; split; [discriminate | reflexivity]].
  destruct (d_types d) as [ty |]; [| left; split; [discriminate | reflexivity]].
  destruct (non_null (d_baseStats d)) as [bs |];
    [| left; split; [discriminate | reflexivity]].
  destruct (d_description d) as [de |];
    [| left; split; [discriminate | reflexivity]].
  right. destruct (name_taken n (rows t)) eqn:E.
  - left. split; [reflexivity |]. exists n. auto.
  - right. split; [reflexivity |]. eexists. repeat split. exact E.
Qed.

(** What POST answers when a required attribute is missing. *)
Lemma post_pokemon_400 (d : PokemonData) (t : Table) :
  not_null_violations d <> [] ->
  post_pokemon d t
  = ({| status := 400;
        content := ErrorBody "Validation error"
                     (String.concat ", " (not_null_violations d)) |}, t).
Proof.
  intros Hne. unfold post_pokemon.
  destruct (create_cases (with_total d) t)
    as [[_ ->] | [(He & _) | (He & _)]];
    rewrite not_null_violations_with_total in *; [reflexivity | | ]; congruence.
Qed.

(** The result of a POST: nothing stored, or one row appended. *)
Lemma post_pokemon_table (d : PokemonData) (t : Table) :
  ((post_pokemon d t).2 = t /\ data_entity (post_pokemon d t).1 = None)
  \/ exists p,
       post_pokemon d t
       = ({| status := 201;
             content := EntityBody p (Some "Pokémon created successfully") |},
          {| rows := rows t ++ [p]; next_id := next_id t + 1 |})
       /\ Pokemon.id p = next_id t
       /\ name_taken (Pokemon.name p) (rows t) = false.
Proof.
  unfold post_pokemon.
  destruct (create_cases (with_total d) t)
    as [[_ ->] | [(_ & _ & _ & _ & ->) | (_ & p & -> & Hid & _ & Htk & _)]].
  - left. split; reflexivity.
  - left. split; reflexivity.
  - right. exists p. repeat split; assumption.
Qed.

(** X1. POST /api/v1/pokemon answers 400 when a required attribute (name,
    species, types, baseStats, description) is missing, and leaves the
    table as it was; it answers 500 when all are present but the name is
    already in the table, and leaves the rows as they were; and it answers
    201 only when all are present and the name is free, the rows then
    being the previous ones and the returned entity.  (Request bodies
    carry no id: [PokemonData] has none.) *)
Theorem post_pokemon_outcomes (d : PokemonData) (t : Table) :
  (not_null_violations d <> [] ->
     status (post_pokemon d t).1 = 400
     /\ success (post_pokemon d t).1 = false
     /\ (post_pokemon d t).2 = t)
  /\ (not_null_violations d = [] ->
      (forall n, d_name d = Some n -> name_taken n (rows t) = true) ->
      status (post_pokemon d t).1 = 500
      /\ success (post_pokemon d t).1 = false
      /\ rows (post_pokemon d t).2 = rows t)
  /\ (status (post_pokemon d t).1 = 201 ->
      not_null_violations d = []
      /\ (forall n, d_name d = Some n -> name_taken n (rows t) = false)
      /\ exists p, data_entity (post_pokemon d t).1 = Some p
                   /\ d_name d = Some (Pokemon.name p)
                   /\ rows (post_pokemon d t).2 ≡ₚ p :: rows t).
Proof.
  unfold post_pokemon.
  pose proof (not_null_violations_with_total d) as Hv.
  destruct (with_total_other_fields d) as (Hn & _).
  destruct (create_cases (with_total d) t)
    as [[Hne ->] | [(He & n & Hdn & Htk & ->) | (He & p & -> & Hid & Hdn & Htk & _)]];
    try rewrite Hv in *; try rewrite Hn in *; simpl.
  - split; [auto |]. split; [intros; congruence | discriminate].
  - split; [intros; congruence |]. split; [auto | discriminate].
  - split; [intros; congruence |]. split.
    + intros _ Htaken. rewrite (Htaken _ Hdn) in Htk. discriminate.
    + intros _. split; [exact He |]. split.
      * intros n Hn'. rewrite Hdn in Hn'. inversion Hn'; subst. exact Htk.
      * exists p. split; [reflexivity |]. split; [exact Hdn |].
        rewrite Permutation_app_comm. reflexivity.
Qed.

Lemma post_pokemon_outcomes_witness :
  status (post_pokemon pikachu two_rows).1 = 500
  /\ rows (post_pokemon pikachu two_rows).2 = rows two_rows.
Proof.
  destruct (post_pokemon_outcomes pikachu two_rows) as (_ & H & _).
  destruct H as (H1 & _ & H2); [reflexivity | | auto].
  intros n Hn. inversion Hn; subst. reflexivity.
Defined.

(** ** The table's constraints are kept *)

Lemma name_taken_false (n : string) (l : list Pokemon.t) :
  name_taken n l = false <-> n ∉ Pokemon.name <$> l.
Proof.
  unfold name_taken. rewrite <- not_true_iff_false, existsb_exists.
  rewrite list_elem_of_fmap. split.
  - intros H (x & -> & Hx). apply H. exists x.
    rewrite <- list_elem_of_In. split; [exact Hx | apply String.eqb_refl].
  - intros H (x & Hx & He). apply String.eqb_eq in He. apply H.
    exists x. rewrite list_elem_of_In. auto.
Qed.

Lemma NoDup_fmap_filter {B : Type} (f : Pokemon.t -> B) (g : Pokemon.t -> bool)
    (l : list Pokemon.t) :
  NoDup (f <$> l) -> NoDup (f <$> List.filter g l).
Proof.
  induction l as [| x l IH]; simpl; [auto |].
  rewrite ?fmap_cons, NoDup_cons. intros [Hx Hl].
  destruct (g x); [| auto].
  rewrite ?fmap_cons, NoDup_cons. split; [| auto].
  intros Hin. apply Hx. apply list_elem_of_fmap in Hin as (y & -> & Hy).
  apply elem_of_filter_bool in Hy as [Hy _].
  apply list_elem_of_fmap. eauto.
Qed.

Lemma Forall_filter_bool (P : Pokemon.t -> Prop) (g : Pokemon.t -> bool)
    (l : list Pokemon.t) :
  Forall P l -> Forall P (List.filter g l).
Proof.
  rewrite !Forall_forall. intros H x Hx.
  apply elem_of_filter_bool in Hx as [Hx _]. auto.
Qed.

Lemma replace_row_cons (k : Z) (p' r : Pokemon.t) (l : list Pokemon.t) :
  replace_row k p' (r :: l)
  = (if Pokemon.id r =? k then p' else r) :: replace_row k p' l.
Proof. reflexivity. Qed.

Lemma elem_of_replace_row (k : Z) (p' x : Pokemon.t) (l : list Pokemon.t) :
  x ∈ replace_row k p' l -> x = p' \/ (x ∈ l /\ Pokemon.id x <> k).
Proof.
  induction l as [| r l IH]; [intros H; apply elem_of_nil in H; destruct H |].
  rewrite replace_row_cons, elem_of_cons. intros [-> | H].
  - destruct (Pokemon.id r =? k) eqn:E; [left; reflexivity |].
    right. apply Z.eqb_neq in E. split; [apply elem_of_cons; auto | exact E].
  - destruct (IH H) as [-> | [Hx Hk]]; [left; reflexivity |].
    right. split; [apply elem_of_cons; auto | exact Hk].
Qed.

Lemma replace_row_ids (k : Z) (p' : Pokemon.t) (l : list Pokemon.t) :
  Pokemon.id p' = k ->
  Pokemon.id <$> replace_row k p' l = Pokemon.id <$> l.
Proof.
  intros Hk. induction l as [| r l IH]; [reflexivity |].
  rewrite replace_row_cons, !fmap_cons, IH. f_equal.
  destruct (Pokemon.id r =? k) eqn:E; [| reflexivity].
  apply Z.eqb_eq in E. congruence.
Qed.

Lemma replace_row_absent (k : Z) (p' : Pokemon.t) (l : list Pokemon.t) :
  k ∉ Pokemon.id <$> l -> replace_row k p' l = l.
Proof.
  induction l as [| r l IH]; [reflexivity |].
  rewrite fmap_cons, not_elem_of_cons. intros [Hr Hl].
  rewrite replace_row_cons, (IH Hl).
  destruct (Pokemon.id r =? k) eqn:E; [| reflexivity].
  apply Z.eqb_eq in E. congruence.
Qed.

Lemma filter_other_cons (k : Z) (r : Pokemon.t) (l : list Pokemon.t) :
  List.filter (fun r => negb (Pokemon.id r =? k)) (r :: l)
  = if Pokemon.id r =? k
    then List.filter (fun r => negb (Pokemon.id r =? k)) l
    else r :: List.filter (fun r => negb (Pokemon.id r =? k)) l.
Proof. cbn [List.filter]. destruct (Pokemon.id r =? k); reflexivity. Qed.

Lemma filter_other_absent (k : Z) (l : list Pokemon.t) :
  k ∉ Pokemon.id <$> l ->
  List.filter (fun r => negb (Pokemon.id r =? k)) l = l.
Proof.
  induction l as [| r l IH]; [reflexivity |].
  rewrite fmap_cons, not_elem_of_cons. intros [Hr Hl].
  rewrite filter_other_cons, (IH Hl).
  destruct (Pokemon.id r =? k) eqn:E; [| reflexivity].
  apply Z.eqb_eq in E. congruence.
Qed.

Lemma name_taken_cons (n : string) (r : Pokemon.t) (l : list Pokemon.t) :
  name_taken n (r :: l) = String.eqb (Pokemon.name r) n || name_taken n l.
Proof. reflexivity. Qed.

Lemma replace_row_names (k : Z) (p' : Pokemon.t) (l : list Pokemon.t) :
  NoDup (Pokemon.id <$> l) ->
  NoDup (Pokemon.name <$> l) ->
  name_taken (Pokemon.name p')
    (List.filter (fun r => negb (Pokemon.id r =? k)) l) = false ->
  NoDup (Pokemon.name <$> replace_row k p' l).
Proof.
  induction l as [| r l IH]; [intros; constructor |].
  rewrite !fmap_cons, !NoDup_cons. intros [Hid Hids] [Hnm Hnms].
  rewrite filter_other_cons, replace_row_cons.
  destruct (Pokemon.id r =? k) eqn:E; intros Htk.
  - apply Z.eqb_eq in E. subst k.
    rewrite (replace_row_absent _ _ _ Hid).
    rewrite (filter_other_absent _ _ Hid) in Htk.
    rewrite fmap_cons, NoDup_cons. split; [| exact Hnms].
    apply name_taken_false. exact Htk.
  - rewrite name_taken_cons in Htk. apply orb_false_iff in Htk as [Hne Htk].
    rewrite fmap_cons, NoDup_cons. split; [| apply IH; assumption].
    intros Hin. apply list_elem_of_fmap in Hin as (x & Hx & Hxin).
    apply elem_of_replace_row in Hxin as [-> | [Hxin _]].
    + rewrite Hx, String.eqb_refl in Hne. discriminate.
    + apply Hnm. apply list_elem_of_fmap. eauto.
Qed.

(** What [pokemon.update] returns when it succeeds. *)
Lemma update_ok (p p' : Pokemon.t) (d : PokemonData) (t t' : Table) :
  update p d t = Ok (p', t') ->
  Pokemon.id p' = Pokemon.id p
  /\ rows t' = replace_row (Pokemon.id p) p' (rows t)
  /\ next_id t' = next_id t
  /\ name_taken (Pokemon.name p')
       (List.filter (fun r => negb (Pokemon.id r =? Pokemon.id p)) (rows t)) = false
  /\ p' = Pokemon.mk (Pokemon.id p)
            (default (Pokemon.name p) (d_name d))
            (default (Pokemon.species p) (d_species d))
            (default (Pokemon.types p) (d_types d))
            (default (Pokemon.baseStats p) (d_baseStats d))
            (default (Pokemon.generation p) (d_generation d))
            (default (Pokemon.description p) (d_description d)).
Proof.
  unfold update.
  destruct (d_baseStats d) as [[] |]; try discriminate;
    (destruct (name_taken _ _) eqn:E; [discriminate |];
     intros H; inversion H; subst; clear H; repeat split; exact E).
Qed.

(** The table after a PUT: untouched, or one row replaced. *)
Lemma put_pokemon_table (id : string) (d : PokemonData) (t : Table) :
  ((put_pokemon id d t).2 = t /\ data_entity (put_pokemon id d t).1 = None)
  \/ exists k p p' t',
       pg_int4_in id = Some k
       /\ List.find (fun r => Pokemon.id r =? k) (rows t) = Some p
       /\ Pokemon.id p = k
       /\ update p (with_total d) t = Ok (p', t')
       /\ put_pokemon id d t
          = ({| status := 200;
                content := EntityBody p' (Some "Pokémon updated successfully") |}, t').
Proof.
  unfold put_pokemon, findByPk.
  destruct (pg_int4_in id) as [k |]; [| left; split; reflexivity].
  destruct (List.find _ (rows t)) as [p |] eqn:Hf; [| left; split; reflexivity].
  destruct (update p (with_total d) t) as [[p' t'] | e] eqn:Hu;
    [| left; split; reflexivity].
  right. exists k, p, p', t'. pose proof (find_some _ _ Hf) as [_ Hk].
  apply Z.eqb_eq in Hk. repeat split; auto.
Qed.

(** The table after a DELETE: untouched, or the rows of one id removed. *)
Lemma delete_pokemon_table (id : string) (t : Table) :
  ((delete_pokemon id t).2 = t /\ data_entity (delete_pokemon id t).1 = None)
  \/ exists k p,
       pg_int4_in id = Some k
       /\ List.find (fun r => Pokemon.id r =? k) (rows t) = Some p
       /\ Pokemon.id p = k
       /\ delete_pokemon id t
          = ({| status := 200;
                content := EntityBody p (Some "Pokémon deleted successfully") |},
             {| rows := List.filter (fun r => negb (Pokemon.id r =? k)) (rows t);
                next_id := next_id t |}).
Proof.
  unfold delete_pokemon, findByPk.
  destruct (pg_int4_in id) as [k |]; [| left; split; reflexivity].
  destruct (List.find _ (rows t)) as [p |] eqn:Hf; [| left; split; reflexivity].
  right. exists k, p. pose proof (find_some _ _ Hf) as [_ Hk].
  apply Z.eqb_eq in Hk. unfold destroy. rewrite Hk. repeat split; auto.
Qed.

(** X2. POST, PUT and DELETE keep the table's constraints: if the ids are
    unique and below the serial and the names are unique before the
    request, they are so after it, whatever the request and its outcome.
    (Request bodies carry no id: [PokemonData] has none.) *)
Theorem handlers_keep_well_formed (t : Table) (id : string) (d : PokemonData) :
  well_formed t ->
  well_formed (post_pokemon d t).2
  /\ well_formed (put_pokemon id d t).2
  /\ well_formed (delete_pokemon id t).2.
Proof.
  intros (Hids & Hlt & Hnames). split; [| split].
  - destruct (post_pokemon_table d t) as [[-> _] | (p & -> & Hid & Htk)];
      [repeat split; assumption |].
    unfold well_formed. simpl. rewrite !fmap_app. simpl.
    split; [| split].
    + apply NoDup_app. split; [exact Hids |]. split; [| apply NoDup_singleton].
      intros x Hx Hx'. apply list_elem_of_singleton in Hx'. subst x.
      apply list_elem_of_fmap in Hx as (r & Hr & Hrin).
      rewrite Forall_forall in Hlt. specialize (Hlt r Hrin). lia.
    + apply Forall_app. split.
      * eapply Forall_impl; [exact Hlt |]. intros r Hr. simpl in Hr. lia.
      * constructor; [lia | constructor].
    + apply NoDup_app. split; [exact Hnames |]. split; [| apply NoDup_singleton].
      intros x Hx Hx'. apply list_elem_of_singleton in Hx'. subst x.
      apply name_taken_false in Htk. contradiction.
  - destruct (put_pokemon_table id d t)
      as [[-> _] | (k & p & p' & t' & _ & Hfind & Hk & Hu & ->)];
      [repeat split; assumption |].
    apply update_ok in Hu as (Hid' & Hrows & Hnext & Htk & _). simpl.
    unfold well_formed. rewrite Hrows, Hnext.
    rewrite (replace_row_ids _ _ _ Hid').
    split; [exact Hids |]. split.
    + rewrite Forall_forall in *. intros x Hx.
      apply elem_of_replace_row in Hx as [-> | [Hx _]]; [| auto].
      apply find_some in Hfind as [Hpin _].
      apply list_elem_of_In in Hpin. rewrite Hid'. auto.
    + apply replace_row_names; assumption.
  - destruct (delete_pokemon_table id t) as [[-> _] | (k & p & _ & _ & _ & ->)];
      [repeat split; assumption |].
    simpl. unfold well_formed. simpl. split; [| split].
    + apply NoDup_fmap_filter. exact Hids.
    + apply Forall_filter_bool. exact Hlt.
    + apply NoDup_fmap_filter. exact Hnames.
Qed.

Lemma two_rows_well_formed : well_formed two_rows.
Proof. apply (bool_decide_unpack _). vm_compute. reflexivity. Qed.

Lemma handlers_keep_well_formed_witness :
  well_formed (post_pokemon pikachu two_rows).2
  /\ well_formed (put_pokemon "2" pikachu two_rows).2
  /\ well_formed (delete_pokemon "2" two_rows).2.
Proof.
  apply (handlers_keep_well_formed two_rows).
  apply (bool_decide_unpack _). vm_compute. reflexivity.
Defined.

(** ** Round trips and frames *)

Lemma find_app_new (k : Z) (l : list Pokemon.t) (p : Pokemon.t) :
  k ∉ Pokemon.id <$> l -> Pokemon.id p = k ->
  List.find (fun r => Pokemon.id r =? k) (l ++ [p]) = Some p.
Proof.
  intros Hk Hp. induction l as [| r l IH]; simpl.
  - rewrite Hp, Z.eqb_refl. reflexivity.
  - rewrite fmap_cons, not_elem_of_cons in Hk. destruct Hk as [Hr Hl].
    destruct (Pokemon.id r =? k) eqn:E; [apply Z.eqb_eq in E; congruence |].
    apply IH. exact Hl.
Qed.

Lemma below_serial_absent (t : Table) :
  well_formed t -> next_id t ∉ Pokemon.id <$> rows t.
Proof.
  intros (_ & Hlt & _) Hin. apply list_elem_of_fmap in Hin as (r & Hr & Hrin).
  rewrite Forall_forall in Hlt. specialize (Hlt r Hrin). lia.
Qed.

(** X3. In a well-formed table, the entity returned by a successful POST is
    what GET /api/v1/pokemon/:id returns for its id afterwards. *)
Theorem post_then_get (d : PokemonData) (t : Table) (p : Pokemon.t) (id : string) :
  well_formed t ->
  data_entity (post_pokemon d t).1 = Some p ->
  pg_int4_in id = Some (Pokemon.id p) ->
  get_pokemon id (post_pokemon d t).2
  = {| status := 200; content := EntityBody p None |}.
Proof.
  intros Hwf Hp Hid.
  destruct (post_pokemon_table d t) as [[_ Hnone] | (q & Heq & Hq & _)];
    [congruence |].
  rewrite Heq in *. simpl in Hp. inversion Hp; subst q.
  unfold get_pokemon, findByPk. rewrite Hid. simpl.
  rewrite find_app_new; [reflexivity | | reflexivity].
  rewrite Hq. apply below_serial_absent. exact Hwf.
Qed.

Lemma post_then_get_witness :
  exists p, data_entity (post_pokemon pikachu empty_table).1 = Some p
            /\ get_pokemon "1" (post_pokemon pikachu empty_table).2
               = {| status := 200; content := EntityBody p None |}.
Proof.
  eexists. split; [reflexivity |].
  apply (post_then_get pikachu empty_table);
    [apply (bool_decide_unpack _); vm_compute; reflexivity
    | reflexivity | reflexivity].
Defined.

(** X4. The serial does not reuse ids: in a well-formed table, the id that
    a POST whose body carries no id ([PokemonData] has none) receives,
    also after a DELETE, differs from the id of every row the table
    held. *)
Theorem ids_are_not_reused (d : PokemonData) (t : Table) (id : string)
    (p q : Pokemon.t) :
  well_formed t ->
  q ∈ rows t ->
  (data_entity (post_pokemon d t).1 = Some p -> Pokemon.id p <> Pokemon.id q)
  /\ (data_entity (post_pokemon d (delete_pokemon id t).2).1 = Some p ->
      Pokemon.id p <> Pokemon.id q).
Proof.
  intros (_ & Hlt & _) Hq.
  rewrite Forall_forall in Hlt. specialize (Hlt q Hq).
  assert (Hnext : next_id (delete_pokemon id t).2 = next_id t).
  { destruct (delete_pokemon_table id t) as [[-> _] | (k & r & _ & _ & _ & ->)];
      reflexivity. }
  split; intros Hp.
  - destruct (post_pokemon_table d t) as [[_ Hnone] | (p' & Heq & Hid & _)];
      [congruence |].
    rewrite Heq in Hp. simpl in Hp. inversion Hp; subst. lia.
  - destruct (post_pokemon_table d (delete_pokemon id t).2)
      as [[_ Hnone] | (p' & Heq & Hid & _)]; [congruence |].
    rewrite Heq in Hp. simpl in Hp. inversion Hp; subst. lia.
Qed.

Lemma ids_are_not_reused_witness :
  exists p q,
    q ∈ rows two_rows
    /\ data_entity (post_pokemon pikachu (delete_pokemon "2" two_rows).2).1 = Some p
    /\ Pokemon.id p <> Pokemon.id q.
Proof.
  assert (Hq : exists q, q ∈ rows two_rows) by (eexists; vm_compute; constructor).
  destruct Hq as [q Hq].
  assert (Hp : exists p,
             data_entity (post_pokemon pikachu (delete_pokemon "2" two_rows).2).1
             = Some p) by (eexists; reflexivity).
  destruct Hp as [p Hp].
  exists p, q. split; [exact Hq |]. split; [exact Hp |].
  destruct (ids_are_not_reused pikachu two_rows "2" p q two_rows_well_formed Hq)
    as [_ H].
  exact (H Hp).
Defined.

Lemma find_replace_row_same (k : Z) (p' : Pokemon.t) (l : list Pokemon.t) :
  Pokemon.id p' = k ->
  List.find (fun r => Pokemon.id r =? k) (replace_row k p' l)
  = match List.find (fun r => Pokemon.id r =? k) l with
    | Some _ => Some p'
    | None => None
    end.
Proof.
  intros Hk. induction l as [| r l IH]; [reflexivity |].
  rewrite replace_row_cons. cbn [List.find].
  destruct (Pokemon.id r =? k) eqn:E.
  - rewrite Hk, Z.eqb_refl. reflexivity.
  - rewrite E. exact IH.
Qed.

Lemma find_replace_row_other (j k : Z) (p' : Pokemon.t) (l : list Pokemon.t) :
  Pokemon.id p' = k -> j <> k ->
  List.find (fun r => Pokemon.id r =? j) (replace_row k p' l)
  = List.find (fun r => Pokemon.id r =? j) l.
Proof.
  intros Hk Hj. induction l as [| r l IH]; [reflexivity |].
  rewrite replace_row_cons. cbn [List.find].
  destruct (Pokemon.id r =? k) eqn:E.
  - apply Z.eqb_eq in E.
    assert ((Pokemon.id p' =? j) = false) as -> by (apply Z.eqb_neq; congruence).
    assert ((Pokemon.id r =? j) = false) as -> by (apply Z.eqb_neq; congruence).
    exact IH.
  - rewrite IH. reflexivity.
Qed.

Lemma find_filter_other (j k : Z) (l : list Pokemon.t) :
  j <> k ->
  List.find (fun r => Pokemon.id r =? j)
    (List.filter (fun r => negb (Pokemon.id r =? k)) l)
  = List.find (fun r => Pokemon.id r =? j) l.
Proof.
  intros Hj. induction l as [| r l IH]; [reflexivity |].
  rewrite filter_other_cons. cbn [List.find].
  destruct (Pokemon.id r =? k) eqn:E.
  - apply Z.eqb_eq in E.
    assert ((Pokemon.id r =? j) = false) as -> by (apply Z.eqb_neq; congruence).
    exact IH.
  - cbn [List.find]. rewrite IH. reflexivity.
Qed.

(** X5. The entity returned by a successful PUT is what GET returns for
    that id afterwards. *)
Theorem put_then_get (id : string) (d : PokemonData) (t : Table) (p' : Pokemon.t) :
  data_entity (put_pokemon id d t).1 = Some p' ->
  get_pokemon id (put_pokemon id d t).2
  = {| status := 200; content := EntityBody p' None |}.
Proof.
  intros Hp.
  destruct (put_pokemon_table id d t)
    as [Hsame | (k & p & q & t' & Hk & Hfind & Hpk & Hu & Heq)].
  - destruct Hsame as [_ Hnone]. congruence.
  - rewrite Heq in *. simpl in Hp. inversion Hp; subst q. simpl.
    apply update_ok in Hu as (Hid & Hrows & _).
    unfold get_pokemon, findByPk. rewrite Hk, Hrows, Hpk.
    rewrite find_replace_row_same by congruence. rewrite Hfind. reflexivity.
Qed.

Lemma put_then_get_witness :
  exists p', data_entity (put_pokemon "2" (bulbasaur JNull) empty_table).1 = None
             /\ data_entity (put_pokemon "1" pikachu (post_pokemon pikachu empty_table).2).1
                = Some p'
             /\ get_pokemon "1"
                  (put_pokemon "1" pikachu (post_pokemon pikachu empty_table).2).2
                = {| status := 200; content := EntityBody p' None |}.
Proof.
  eexists. split; [reflexivity |]. split; [reflexivity |].
  apply put_then_get. reflexivity.
Defined.

(** X6. A PUT or a DELETE on one id changes nothing in what GET returns for
    another id. *)
Theorem other_ids_are_untouched (id other : string) (k j : Z) (d : PokemonData)
    (t : Table) :
  pg_int4_in id = Some k ->
  pg_int4_in other = Some j ->
  j <> k ->
  get_pokemon other (put_pokemon id d t).2 = get_pokemon other t
  /\ get_pokemon other (delete_pokemon id t).2 = get_pokemon other t.
Proof.
  intros Hk Hj Hne. split.
  - destruct (put_pokemon_table id d t)
      as [[-> _] | (k' & p & p' & t' & Hk' & _ & Hpk & Hu & ->)];
      [reflexivity |].
    apply update_ok in Hu as (Hid & Hrows & _). simpl.
    unfold get_pokemon, findByPk. rewrite Hj, Hrows.
    rewrite find_replace_row_other; [reflexivity | congruence | congruence].
  - destruct (delete_pokemon_table id t) as [[-> _] | (k' & p & Hk' & _ & _ & ->)];
      [reflexivity |].
    simpl. unfold get_pokemon, findByPk. rewrite Hj. simpl.
    rewrite find_filter_other; [reflexivity | congruence].
Qed.

Lemma other_ids_are_untouched_witness :
  get_pokemon "2" (put_pokemon "1" (bulbasaur JNull) two_rows).2
  = get_pokemon "2" two_rows
  /\ get_pokemon "2" (delete_pokemon "1" two_rows).2 = get_pokemon "2" two_rows.
Proof.
  apply (other_ids_are_untouched "1" "2" 1 2); [reflexivity | reflexivity | lia].
Defined.

Lemma replace_row_idem (k : Z) (p' : Pokemon.t) (l : list Pokemon.t) :
  Pokemon.id p' = k ->
  replace_row k p' (replace_row k p' l) = replace_row k p' l.
Proof.
  intros Hk. induction l as [| r l IH]; [reflexivity |].
  rewrite !replace_row_cons, IH. f_equal.
  destruct (Pokemon.id r =? k) eqn:E; [| rewrite E; reflexivity].
  rewrite Hk, Z.eqb_refl. reflexivity.
Qed.

Lemma filter_other_replace_row (k : Z) (p' : Pokemon.t) (l : list Pokemon.t) :
  Pokemon.id p' = k ->
  List.filter (fun r => negb (Pokemon.id r =? k)) (replace_row k p' l)
  = List.filter (fun r => negb (Pokemon.id r =? k)) l.
Proof.
  intros Hk. induction l as [| r l IH]; [reflexivity |].
  rewrite replace_row_cons, !filter_other_cons, IH.
  destruct (Pokemon.id r =? k) eqn:E; [| rewrite E; reflexivity].
  rewrite Hk, Z.eqb_refl. reflexivity.
Qed.

Lemma default_default {A : Type} (x : A) (o : option A) :
  default (default x o) o = default x o.
Proof. destruct o; reflexivity. Qed.

Lemma update_unfold (p : Pokemon.t) (d : PokemonData) (t : Table) :
  update p d t
  = if null_stats d
    then Throw (ValidationError ["Pokemon.baseStats cannot be null"])
    else if name_taken (Pokemon.name (merged p d))
              (List.filter (fun r => negb (Pokemon.id r =? Pokemon.id p)) (rows t))
         then Throw UniqueConstraintError
         else Ok (merged p d,
                  {| rows := replace_row (Pokemon.id p) (merged p d) (rows t);
                     next_id := next_id t |}).
Proof.
  unfold update, null_stats, merged.
  destruct (d_baseStats d) as [[] |]; reflexivity.
Qed.

Lemma merged_idem (p : Pokemon.t) (d : PokemonData) :
  merged (merged p d) d = merged p d.
Proof. unfold merged. simpl. rewrite !default_default. reflexivity. Qed.

(** Updating the updated instance with the same data changes nothing. *)
Lemma update_again (p p' : Pokemon.t) (d : PokemonData) (t t' : Table) :
  update p d t = Ok (p', t') -> update p' d t' = Ok (p', t').
Proof.
  rewrite !update_unfold.
  destruct (null_stats d); [discriminate |].
  destruct (name_taken _ _) eqn:Htk; [discriminate |].
  intros H. inversion H; subst; clear H. cbn [rows next_id].
  change (Pokemon.id (merged p d)) with (Pokemon.id p).
  rewrite merged_idem.
  rewrite filter_other_replace_row by reflexivity. rewrite Htk.
  rewrite replace_row_idem by reflexivity. reflexivity.
Qed.

(** X7. PUT is idempotent: sending the same request a second time gives
    the same response and leaves the table as the first request left it. *)
Theorem put_pokemon_idempotent (id : string) (d : PokemonData) (t : Table) :
  put_pokemon id d (put_pokemon id d t).2 = put_pokemon id d t.
Proof.
  destruct (put_pokemon_table id d t)
    as [[Hsame _] | (k & p & p' & t' & Hk & Hfind & Hpk & Hu & Heq)].
  - rewrite Hsame. reflexivity.
  - rewrite Heq. simpl.
    pose proof (update_ok _ _ _ _ _ Hu) as (Hid & Hrows & _).
    assert (Hf' : List.find (fun r => Pokemon.id r =? k) (rows t') = Some p').
    { rewrite Hrows, Hpk. rewrite find_replace_row_same by congruence.
      rewrite Hfind. reflexivity. }
    unfold put_pokemon, findByPk. rewrite Hk, Hf'.
    rewrite (update_again _ _ _ _ _ Hu). reflexivity.
Qed.

Lemma same_key_same_row {B : Type} (f : Pokemon.t -> B) (l : list Pokemon.t)
    (x y : Pokemon.t) :
  NoDup (f <$> l) -> x ∈ l -> y ∈ l -> f x = f y -> x = y.
Proof.
  intros Hnd Hx Hy Hf.
  apply list_elem_of_lookup in Hx as [i Hi].
  apply list_elem_of_lookup in Hy as [j Hj].
  assert (i = j).
  { apply (NoDup_lookup (f <$> l) i j (f x) Hnd).
    - rewrite list_lookup_fmap, Hi. reflexivity.
    - rewrite list_lookup_fmap, Hj, Hf. reflexivity. }
  subst j. congruence.
Qed.

Lemma replace_row_self (p : Pokemon.t) (l : list Pokemon.t) :
  NoDup (Pokemon.id <$> l) -> p ∈ l ->
  replace_row (Pokemon.id p) p l = l.
Proof.
  intros Hnd Hp. unfold replace_row.
  rewrite <- (map_id l) at 2. apply map_ext_in. intros r Hr.
  destruct (Pokemon.id r =? Pokemon.id p) eqn:E; [| reflexivity].
  apply Z.eqb_eq in E. apply list_elem_of_In in Hr.
  symmetry. apply (same_key_same_row Pokemon.id l r p Hnd Hr Hp E).
Qed.

Lemma merged_empty_body (p : Pokemon.t) : merged p empty_body = p.
Proof. destruct p. reflexivity. Qed.

(** X8. In a well-formed table, a PUT whose body sets no attribute changes
    nothing: the table is as before and the response carries the status
    and the entity that GET gives for that id. *)
Theorem put_empty_body_is_noop (id : string) (t : Table) :
  well_formed t ->
  (put_pokemon id empty_body t).2 = t
  /\ status (put_pokemon id empty_body t).1 = status (get_pokemon id t)
  /\ data_entity (put_pokemon id empty_body t).1 = data_entity (get_pokemon id t).
Proof.
  intros (Hids & _ & Hnames).
  unfold put_pokemon, get_pokemon.
  destruct (findByPk id t) as [[p |] | e] eqn:Hf; [| repeat split ..].
  change (with_total empty_body) with empty_body.
  assert (Hp : p ∈ rows t).
  { unfold findByPk in Hf. destruct (pg_int4_in id); [| discriminate].
    inversion Hf as [Hfind]. apply find_some in Hfind as [Hin _].
    apply list_elem_of_In. exact Hin. }
  rewrite update_unfold, merged_empty_body.
  change (null_stats empty_body) with false. cbv iota.
  assert (Htk : name_taken (Pokemon.name p)
                  (List.filter (fun r => negb (Pokemon.id r =? Pokemon.id p)) (rows t))
                = false).
  { apply name_taken_false. intros Hin.
    apply list_elem_of_fmap in Hin as (r & Hr & Hrin).
    apply elem_of_filter_bool in Hrin as [Hrin Hne].
    apply negb_true_iff, Z.eqb_neq in Hne. apply Hne.
    f_equal. apply (same_key_same_row Pokemon.name (rows t) r p Hnames Hrin Hp).
    congruence. }
  rewrite Htk, (replace_row_self p _ Hids Hp).
  destruct t. repeat split.
Qed.

Lemma put_empty_body_is_noop_witness :
  (put_pokemon "2" empty_body two_rows).2 = two_rows
  /\ status (put_pokemon "2" empty_body two_rows).1 = status (get_pokemon "2" two_rows)
  /\ data_entity (put_pokemon "2" empty_body two_rows).1
     = data_entity (get_pokemon "2" two_rows).
Proof. apply put_empty_body_is_noop. exact two_rows_well_formed. Defined.

Lemma rows_without_found (k : Z) (p : Pokemon.t) (l : list Pokemon.t) :
  NoDup (Pokemon.id <$> l) ->
  List.find (fun r => Pokemon.id r =? k) l = Some p ->
  l ≡ₚ p :: List.filter (fun r => negb (Pokemon.id r =? k)) l.
Proof.
  induction l as [| r l IH]; [discriminate |].
  rewrite fmap_cons, NoDup_cons. intros [Hr Hl].
  cbn [List.find]. rewrite filter_other_cons.
  destruct (Pokemon.id r =? k) eqn:E.
  - intros H; inversion H; subst. apply Z.eqb_eq in E. subst k.
    rewrite (filter_other_absent _ _ Hr). reflexivity.
  - intros H. rewrite (IH Hl H) at 1. apply Permutation_swap.
Qed.

(** X9. In a well-formed table, a DELETE answered 200 removes exactly the
    entity it returns: the rows before the request are that entity together
    with the rows after it. *)
Theorem delete_removes_exactly_one (id : string) (t : Table) (p : Pokemon.t) :
  well_formed t ->
  data_entity (delete_pokemon id t).1 = Some p ->
  status (delete_pokemon id t).1 = 200
  /\ rows t ≡ₚ p :: rows (delete_pokemon id t).2
  /\ p ∉ rows (delete_pokemon id t).2.
Proof.
  intros (Hids & _) Hp.
  destruct (delete_pokemon_table id t) as [Hsame | (k & q & Hk & Hfind & Hq & Heq)].
  - destruct Hsame as [_ Hnone]. congruence.
  - rewrite Heq in *. simpl in *. inversion Hp; subst q.
    split; [reflexivity |]. split; [apply rows_without_found; assumption |].
    intros Hin. apply elem_of_filter_bool in Hin as [_ Hne].
    rewrite Hq, Z.eqb_refl in Hne. discriminate.
Qed.

Lemma delete_removes_exactly_one_witness :
  exists p, data_entity (delete_pokemon "1" two_rows).1 = Some p
            /\ rows two_rows ≡ₚ p :: rows (delete_pokemon "1" two_rows).2.
Proof.
  eexists. split; [reflexivity |].
  apply (delete_removes_exactly_one "1" two_rows);
    [exact two_rows_well_formed | reflexivity].
Defined.

(** ** Pages of a listing *)

Lemma list_options_order (query : gmap string string) :
  list_options query !! "order"
  = Some (QOrder [(default "id" (query !! "sort"),
                   toUpperCase (default "ASC" (query !! "order")))]).
Proof.
  unfold list_options. rewrite paginate_lookup_other by done.
  apply lookup_insert_eq.
Qed.

Lemma bind_ok {A B : Type} (a : A) (k : A -> result B) : mbind k (Ok a) = k a.
Proof. reflexivity. Qed.

Lemma bind_throw {A B : Type} (e : dberror) (k : A -> result B) :
  mbind k (Throw e) = Throw e.
Proof. reflexivity. Qed.

(** The store call of the list handler, in terms of the full listing. *)
Lemma findAndCountAll_list (query : gmap string string) (t : Table) :
  findAndCountAll (list_options query) t
  = (sorted ← list_sorted query t;
     offset ← sql_count (JsNum.mul (JsNum.sub (list_page query) (Num 1))
                                   (list_limit query));
     limit ← sql_count (JsNum.min (list_limit query) (Num 100));
     Ok (length sorted, take limit (drop offset sorted))).
Proof.
  unfold findAndCountAll, list_sorted.
  rewrite list_options_where, list_options_order, list_options_offset,
    list_options_limit.
  destruct (findAll _ t) as [matching | e]; [| reflexivity].
  rewrite !bind_ok.
  destruct (order_rows _ matching) as [sorted | e] eqn:Hs; [| reflexivity].
  rewrite !bind_ok.
  apply order_rows_perm in Hs. rewrite (Permutation_length Hs).
  destruct (sql_count (JsNum.mul _ _)); [| reflexivity].
  rewrite !bind_ok.
  destruct (sql_count (JsNum.min _ _)); reflexivity.
Qed.

Lemma sql_count_int (n : jsnum) (z : Z) :
  JsNum.int_of n = Some z -> 0 <= z < 2 ^ 63 -> sql_count n = Ok (Z.to_nat z).
Proof.
  intros Hn Hz. unfold sql_count, sql_int. rewrite Hn. simpl.
  destruct (z <? 0) eqn:E; [apply Z.ltb_lt in E; lia |].
  destruct (2 ^ 63 <=? z) eqn:E'; [apply Z.leb_le in E'; lia | reflexivity].
Qed.

(** The full listing does not depend on [page] and [limit]. *)
Lemma list_sorted_page_limit (query : gmap string string) (t : Table) (s : string) :
  list_sorted (<["page" := s]> query) t = list_sorted query t
  /\ list_sorted (<["limit" := s]> query) t = list_sorted query t.
Proof.
  unfold list_sorted, list_filters.
  rewrite !lookup_insert_ne by done.
  rewrite delete_insert_eq.
  rewrite (delete_insert_ne query "page" "limit") by done.
  rewrite delete_insert_eq. split; reflexivity.
Qed.

(** The response to a list request whose page and limit are in range. *)
Lemma get_pokemon_list_slice (query : gmap string string) (t : Table)
    (sorted : list Pokemon.t) (p l : Z) :
  list_sorted query t = Ok sorted ->
  JsNum.int_of (list_page query) = Some p ->
  JsNum.int_of (list_limit query) = Some l ->
  1 <= p <= 2 ^ 53 -> 0 <= l -> (p - 1) * l <= 2 ^ 53 ->
  status (get_pokemon_list query t) = 200
  /\ data_list (get_pokemon_list query t)
     = take (Z.to_nat (Z.min l 100)) (drop (Z.to_nat ((p - 1) * l)) sorted)
  /\ totalItems <$> pagination_of (get_pokemon_list query t)
     = Some (length sorted).
Proof.
  intros Hs Hp Hl Hp1 Hl0 Hpl. unfold get_pokemon_list.
  assert (H63 : 2 ^ 53 < 2 ^ 63) by reflexivity.
  rewrite findAndCountAll_list, Hs, bind_ok.
  rewrite (sql_count_int (JsNum.mul (JsNum.sub (list_page query) (Num 1))
                                    (list_limit query)) ((p - 1) * l));
    [| apply int_of_mul; [apply int_of_sub_one; [exact Hp | lia] | exact Hl | nia]
     | nia].
  rewrite bind_ok.
  rewrite (sql_count_int (JsNum.min (list_limit query) (Num 100)) (Z.min l 100));
    [| apply int_of_min_100; exact Hl | lia].
  rewrite bind_ok. repeat split.
Qed.

Lemma unown_table_well_formed : well_formed (unown_table 45).
Proof. apply (bool_decide_unpack _). vm_compute. reflexivity. Qed.

Lemma unown_table_sorted (s : string) :
  list_sorted (<["page" := s]> {["limit" := "20"]}) (unown_table 45)
  = Ok (unown_rows 45).
Proof.
  destruct (list_sorted_page_limit {["limit" := "20"]} (unown_table 45) s) as [-> _].
  vm_compute. reflexivity.
Qed.

(** X10. In a well-formed table and without a [sort] parameter (the listing
    is then ordered by id, which leaves no ties), when the filters and the
    order are accepted, page [p >= 1] of a listing with limit [l >= 0],
    with [p] and (p - 1) * l not above 2^53, is answered 200 and holds the
    rows of the full ordered listing from position (p - 1) * l on, at most
    min(l, 100) of them; totalItems is the length of the full listing. *)
Theorem page_is_a_slice (query : gmap string string) (t : Table)
    (sorted : list Pokemon.t) (p l : Z) :
  well_formed t ->
  query !! "sort" = None ->
  list_sorted query t = Ok sorted ->
  JsNum.int_of (list_page query) = Some p ->
  JsNum.int_of (list_limit query) = Some l ->
  1 <= p <= 2 ^ 53 -> 0 <= l -> (p - 1) * l <= 2 ^ 53 ->
  status (get_pokemon_list query t) = 200
  /\ data_list (get_pokemon_list query t)
     = take (Z.to_nat (Z.min l 100)) (drop (Z.to_nat ((p - 1) * l)) sorted)
  /\ totalItems <$> pagination_of (get_pokemon_list query t)
     = Some (length sorted).
Proof. intros _ _. apply get_pokemon_list_slice. Qed.

Lemma page_is_a_slice_witness :
  list_sorted (<["page" := "3"]> {["limit" := "20"]}) (unown_table 45)
  = Ok (unown_rows 45)
  /\ data_list (get_pokemon_list (<["page" := "3"]> {["limit" := "20"]})
                  (unown_table 45))
     = take 20 (drop 40 (unown_rows 45)).
Proof.
  split; [apply unown_table_sorted |].
  destruct (page_is_a_slice (<["page" := "3"]> {["limit" := "20"]})
              (unown_table 45) (unown_rows 45) 3 20) as (_ & H & _);
    [exact unown_table_well_formed | reflexivity | apply unown_table_sorted
    | reflexivity | reflexivity
    | split; [lia | vm_compute; discriminate] | lia | vm_compute; discriminate |].
  exact H.
Defined.

(** X11. In a well-formed table and without a [sort] parameter, with a limit
    between 1 and 100, the pages of a listing leave no row out: the row at
    position [i] (below 2^53) of the full listing ordered by id is on page
    [i / l + 1], at position [i mod l]. *)
Theorem every_row_is_on_its_page (query : gmap string string) (t : Table)
    (sorted : list Pokemon.t) (l : Z) (i : nat) (r : Pokemon.t) (s : string) :
  well_formed t ->
  query !! "sort" = None ->
  list_sorted query t = Ok sorted ->
  JsNum.int_of (list_limit query) = Some l ->
  1 <= l <= 100 ->
  sorted !! i = Some r ->
  Z.of_nat i < 2 ^ 53 ->
  parseInt s = Num (Z.of_nat i / l + 1) ->
  data_list (get_pokemon_list (<["page" := s]> query) t)
    !! Z.to_nat (Z.of_nat i mod l) = Some r.
Proof.
  intros _ _ Hs Hl Hrange Hi Hi53 Hpage.
  destruct (list_sorted_page_limit query t s) as [Hs' _].
  pose proof (Z.div_mod (Z.of_nat i) l ltac:(lia)) as Hdm.
  pose proof (Z.mod_pos_bound (Z.of_nat i) l ltac:(lia)) as Hmod.
  assert (0 <= Z.of_nat i / l) by (apply Z.div_pos; lia).
  assert (Z.of_nat i / l * l <= Z.of_nat i) by nia.
  destruct (get_pokemon_list_slice (<["page" := s]> query) t sorted
              (Z.of_nat i / l + 1) l) as (_ & -> & _).
  - rewrite Hs'. exact Hs.
  - unfold list_page. rewrite lookup_insert_eq. simpl. rewrite Hpage. reflexivity.
  - unfold list_limit. rewrite lookup_insert_ne by done. exact Hl.
  - split; [lia |]. nia.
  - lia.
  - replace (Z.of_nat i / l + 1 - 1) with (Z.of_nat i / l) by lia. lia.
  - rewrite lookup_take_lt by lia.
    rewrite lookup_drop. rewrite <- Hi. f_equal.
    replace (Z.of_nat i / l + 1 - 1) with (Z.of_nat i / l) by lia.
    nia.
Qed.

Lemma every_row_is_on_its_page_witness :
  exists r, unown_rows 45 !! 44%nat = Some r
            /\ data_list (get_pokemon_list (<["page" := "3"]> {["limit" := "20"]})
                            (unown_table 45)) !! 4%nat = Some r.
Proof.
  eexists. split; [reflexivity |].
  apply (every_row_is_on_its_page {["limit" := "20"]} (unown_table 45)
           (unown_rows 45) 20 44 _ "3");
    [exact unown_table_well_formed | reflexivity | vm_compute; reflexivity
    | reflexivity | lia | reflexivity | vm_compute; reflexivity | reflexivity].
Defined.

Lemma lt_int (a b : jsnum) (x y : Z) :
  JsNum.int_of a = Some x -> JsNum.int_of b = Some y ->
  JsNum.lt a b = (x <? y).
Proof.
  destruct a, b; simpl; intros Ha Hb; inversion Ha; inversion Hb; subst;
    reflexivity.
Qed.

Lemma int_of_div_ceil (c : Z) (b : jsnum) (y : Z) :
  JsNum.int_of b = Some y -> y <> 0 ->
  JsNum.int_of (JsNum.div_ceil (Num c) b) = Some (- ((- c) / y)).
Proof.
  intros Hb Hy. destruct b; simpl in Hb; inversion Hb; subst; [| lia].
  unfold JsNum.div_ceil. cbn [JsNum.int_of].
  destruct (y =? 0) eqn:E; [apply Z.eqb_eq in E; lia |].
  apply int_of_mk.
Qed.

(** X12. In a list response with a limit of at least 1, hasNextPage is
    true exactly when rows of the listing lie beyond the requested page
    (page * limit < totalItems), and hasPreviousPage exactly when the page
    is beyond the first. *)
Theorem has_next_page_iff (query : gmap string string) (t : Table)
    (pg : Pagination) (p l : Z) :
  pagination_of (get_pokemon_list query t) = Some pg ->
  JsNum.int_of (list_page query) = Some p ->
  JsNum.int_of (list_limit query) = Some l ->
  1 <= l ->
  (hasNextPage pg = true <-> p * l < Z.of_nat (totalItems pg))
  /\ (hasPreviousPage pg = true <-> 1 < p).
Proof.
  intros Hpg Hp Hl Hl1.
  apply get_pokemon_list_pagination in Hpg as (Hcur & _ & Htot & Hnext & Hprev).
  rewrite Hnext, Hprev, Htot, Hcur. split.
  - rewrite (lt_int _ _ p (- ((- Z.of_nat (totalItems pg)) / l)) Hp);
      [| apply int_of_div_ceil; [exact Hl | lia]].
    rewrite Z.ltb_lt.
    pose proof (Z.div_mod (- Z.of_nat (totalItems pg)) l ltac:(lia)) as Hdm.
    pose proof (Z.mod_pos_bound (- Z.of_nat (totalItems pg)) l ltac:(lia)) as Hmod.
    split; intros H; nia.
  - unfold JsNum.gt. rewrite (lt_int (Num 1) _ 1 p eq_refl Hp). apply Z.ltb_lt.
Qed.

Lemma has_next_page_iff_witness :
  exists pg,
    pagination_of (get_pokemon_list {["limit" := "20"]} (numbered_table 45)) = Some pg
    /\ (hasNextPage pg = true <-> 1 * 20 < Z.of_nat (totalItems pg)).
Proof.
  eexists. split; [vm_compute; reflexivity |].
  apply (has_next_page_iff {["limit" := "20"]} (numbered_table 45));
    [vm_compute; reflexivity | reflexivity | reflexivity | lia].
Defined.

(** X13. A [page] or a [limit] that [parseInt] cannot read (for instance
    an empty or a non-numeric value) is answered 500: the offset sent to
    the store is NaN. *)
Theorem unreadable_page_or_limit_is_500 (query : gmap string string) (t : Table)
    (s : string) :
  query !! "page" = Some s \/ query !! "limit" = Some s ->
  parseInt s = NaN ->
  status (get_pokemon_list query t) = 500
  /\ success (get_pokemon_list query t) = false.
Proof.
  intros Hq Hnan.
  assert (Hoff : JsNum.mul (JsNum.sub (list_page query) (Num 1)) (list_limit query)
                 = NaN).
  { destruct Hq as [Hq | Hq].
    - unfold list_page. rewrite Hq. simpl. rewrite Hnan. reflexivity.
    - unfold list_limit at 1. rewrite Hq. simpl. rewrite Hnan.
      destruct (JsNum.sub _ _); reflexivity. }
  unfold get_pokemon_list. rewrite findAndCountAll_list, Hoff.
  destruct (list_sorted query t); split; reflexivity.
Qed.

Lemma unreadable_page_or_limit_is_500_witness :
  status (get_pokemon_list {["limit" := ""]} two_rows) = 500
  /\ success (get_pokemon_list {["limit" := ""]} two_rows) = false.
Proof.
  apply (unreadable_page_or_limit_is_500 _ _ "");
    [right; reflexivity | reflexivity].
Defined.

(** ** Ordering of a listing *)

Section SortBy.
Variable le : Pokemon.t -> Pokemon.t -> bool.
Hypothesis le_total : forall a b, le a b = true \/ le b a = true.
Hypothesis le_trans : forall a b c, le a b = true -> le b c = true -> le a c = true.

Let R (a b : Pokemon.t) : Prop := le a b = true.

Lemma insert_by_sorted (x : Pokemon.t) (l : list Pokemon.t) :
  StronglySorted R l -> StronglySorted R (insert_by le x l).
Proof using le_total le_trans.
  induction l as [| y l IH]; intros Hl; simpl.
  - repeat constructor.
  - apply StronglySorted_inv in Hl as [Hl Hy].
    destruct (le x y) eqn:E.
    + constructor; [constructor; assumption |].
      constructor; [exact E |].
      eapply Forall_impl; [exact Hy |]. intros z Hz. eapply le_trans; eauto.
    + constructor; [apply IH; exact Hl |].
      rewrite insert_by_perm. constructor; [| exact Hy].
      destruct (le_total x y) as [H | H]; [congruence | exact H].
Qed.

Lemma sort_by_sorted (l : list Pokemon.t) : StronglySorted R (sort_by le l).
Proof using le_total le_trans.
  induction l as [| x l IH]; simpl; [constructor |].
  apply insert_by_sorted. exact IH.
Qed.
End SortBy.

Lemma StronglySorted_sublist {A : Type} (R : A -> A -> Prop) (k l : list A) :
  k `sublist_of` l -> StronglySorted R l -> StronglySorted R k.
Proof.
  induction 1 as [| x k l Hkl IH | x k l Hkl IH]; intros Hl.
  - constructor.
  - apply StronglySorted_inv in Hl as [Hl Hx].
    constructor; [apply IH; exact Hl |].
    rewrite Forall_forall in *. intros y Hy. apply Hx.
    eapply elem_of_sublist; eauto.
  - apply StronglySorted_inv in Hl as [Hl _]. apply IH. exact Hl.
Qed.

Lemma StronglySorted_impl {A : Type} (R R' : A -> A -> Prop) (l : list A) :
  (forall a b, R a b -> R' a b) -> StronglySorted R l -> StronglySorted R' l.
Proof.
  intros HR. induction 1 as [| x l Hl IH Hx]; constructor; [exact IH |].
  eapply Forall_impl; [exact Hx |]. intros y. apply HR.
Qed.

(** The rows of a list response are cut out of the full listing. *)
Lemma data_list_sublist (query : gmap string string) (t : Table)
    (sorted : list Pokemon.t) :
  list_sorted query t = Ok sorted ->
  data_list (get_pokemon_list query t) `sublist_of` sorted.
Proof.
  intros Hs. unfold get_pokemon_list.
  rewrite findAndCountAll_list, Hs, bind_ok.
  destruct (sql_count (JsNum.mul _ _)) as [offset | e];
    [| apply sublist_nil_l].
  rewrite bind_ok.
  destruct (sql_count (JsNum.min _ _)) as [limit | e];
    [| apply sublist_nil_l].
  rewrite bind_ok. unfold data_list. simpl.
  etransitivity; [apply sublist_take | apply sublist_drop].
Qed.

(** X14. Without a [sort] parameter the rows of a list response are ordered
    by id, whatever [order] holds.  The direction is read from [order] in
    upper case, ASC when the parameter is absent: with ASC (also with a
    NULLS FIRST or NULLS LAST suffix, or the suffix alone) the ids ascend,
    with DESC (also with a suffix) they descend, and any other value of
    ASCII characters, the empty one included, is answered 500 with no
    rows.  (Beyond ASCII some characters have an ASCII upper case, which
    [toUpperCase] does not render.) *)
Theorem listing_is_ordered_by_id (query : gmap string string) (t : Table) :
  query !! "sort" = None ->
  match order_direction (toUpperCase (default "ASC" (query !! "order"))) with
  | Some true =>
      StronglySorted (fun a b => Pokemon.id a <= Pokemon.id b)
        (data_list (get_pokemon_list query t))
  | Some false =>
      StronglySorted (fun a b => Pokemon.id b <= Pokemon.id a)
        (data_list (get_pokemon_list query t))
  | None =>
      ascii_only (default "ASC" (query !! "order")) = true ->
      status (get_pokemon_list query t) = 500
      /\ data_list (get_pokemon_list query t) = []
  end.
Proof.
  intros Hsort.
  assert (Hnil : forall e, list_sorted query t = Throw e ->
                 status (get_pokemon_list query t) = 500
                 /\ data_list (get_pokemon_list query t) = []).
  { intros e He. unfold get_pokemon_list.
    rewrite findAndCountAll_list, He. split; reflexivity. }
  destruct (list_sorted query t) as [sorted | e] eqn:Hs.
  - pose proof (data_list_sublist query t sorted Hs) as Hsub.
    unfold list_sorted in Hs. rewrite Hsort in Hs.
    destruct (findAll _ t) as [matching | e]; [| discriminate].
    rewrite bind_ok in Hs. cbn [order_rows fold_right default] in Hs.
    rewrite bind_ok in Hs.
    change (column_le "id") with (Some (fun a b => Pokemon.id a <=? Pokemon.id b))
      in Hs.
    destruct (order_direction _) as [[] |]; [| | discriminate];
      inversion Hs; subst;
      (eapply StronglySorted_sublist; [exact Hsub |]).
    + eapply StronglySorted_impl;
        [| apply (sort_by_sorted (fun a b => Pokemon.id a <=? Pokemon.id b))].
      * intros a b H. apply Z.leb_le in H. exact H.
      * intros a b. rewrite !Z.leb_le. lia.
      * intros a b c. rewrite !Z.leb_le. lia.
    + eapply StronglySorted_impl;
        [| apply (sort_by_sorted (fun a b => Pokemon.id b <=? Pokemon.id a))].
      * intros a b H. apply Z.leb_le in H. exact H.
      * intros a b. rewrite !Z.leb_le. lia.
      * intros a b c. rewrite !Z.leb_le. lia.
  - destruct (Hnil e eq_refl) as [H500 Hdata].
    destruct (order_direction _) as [[] |];
      [rewrite Hdata; constructor | rewrite Hdata; constructor
      | intros _; split; assumption].
Qed.

Lemma listing_is_ordered_by_id_witness :
  StronglySorted (fun a b => Pokemon.id b <= Pokemon.id a)
    (data_list (get_pokemon_list {["order" := "desc"]} two_rows))
  /\ StronglySorted (fun a b => Pokemon.id a <= Pokemon.id b)
       (data_list (get_pokemon_list {["order" := "asc"]} two_rows))
  /\ status (get_pokemon_list {["order" := "down"]} two_rows) = 500.
Proof.
  split; [| split].
  - exact (listing_is_ordered_by_id {["order" := "desc"]} two_rows eq_refl).
  - exact (listing_is_ordered_by_id {["order" := "asc"]} two_rows eq_refl).
  - exact (proj1 (listing_is_ordered_by_id {["order" := "down"]} two_rows
                    eq_refl eq_refl)).
Defined.

Example descending_listing :
  Pokemon.id <$> data_list (get_pokemon_list {["order" := "desc"]} two_rows)
  = [2; 1].
Proof. vm_compute. reflexivity. Qed.

Lemma upper_ascii_idem (c : ascii) : upper_ascii (upper_ascii c) = upper_ascii c.
Proof. destruct c as [[] [] [] [] [] [] [] []]; vm_compute; reflexivity. Qed.

Lemma toUpperCase_idem (s : string) : toUpperCase (toUpperCase s) = toUpperCase s.
Proof.
  unfold toUpperCase. induction s as [| c s IH]; simpl; [reflexivity |].
  rewrite upper_ascii_idem, IH. reflexivity.
Qed.

Lemma list_filters_insert_order (query : gmap string string) (o : string) :
  list_filters (<["order" := o]> query) = list_filters query.
Proof.
  unfold list_filters.
  rewrite !(delete_insert_ne _ _ "order") by done.
  rewrite delete_insert_eq. reflexivity.
Qed.

(** X15. The [order] parameter is read without regard to letter case: a
    list request with [order] and the same request with [order] in upper
    case get the same status, the same rows and the same pagination. *)
Theorem order_is_case_insensitive (query : gmap string string) (t : Table)
    (o : string) :
  status (get_pokemon_list (<["order" := toUpperCase o]> query) t)
  = status (get_pokemon_list (<["order" := o]> query) t)
  /\ data_list (get_pokemon_list (<["order" := toUpperCase o]> query) t)
     = data_list (get_pokemon_list (<["order" := o]> query) t)
  /\ pagination_of (get_pokemon_list (<["order" := toUpperCase o]> query) t)
     = pagination_of (get_pokemon_list (<["order" := o]> query) t).
Proof.
  assert (Hopt : list_options (<["order" := toUpperCase o]> query)
                 = list_options (<["order" := o]> query)).
  { unfold list_options, list_page, list_limit.
    rewrite !list_filters_insert_order.
    rewrite !lookup_insert_eq, !lookup_insert_ne by done.
    simpl. rewrite toUpperCase_idem. reflexivity. }
  assert (Hpage : forall x, list_page (<["order" := x]> query) = list_page query).
  { intros x. unfold list_page. rewrite lookup_insert_ne by done. reflexivity. }
  assert (Hlimit : forall x, list_limit (<["order" := x]> query) = list_limit query).
  { intros x. unfold list_limit. rewrite lookup_insert_ne by done. reflexivity. }
  unfold get_pokemon_list. rewrite Hopt, !Hpage, !Hlimit.
  destruct (findAndCountAll _ t) as [[count found] | e]; repeat split.
Qed.

(** ** Empty values, letter case and absent criteria *)

Lemma truthy_insert_empty (f : gmap string string) (k key : string) :
  truthy ((<[k := ""]> f) !! key) = truthy (delete k f !! key).
Proof.
  destruct (decide (k = key)) as [-> | Hne].
  - rewrite lookup_insert_eq, lookup_delete_eq. reflexivity.
  - rewrite lookup_insert_ne, lookup_delete_ne by exact Hne. reflexivity.
Qed.

Lemma buildWhereClause_empty_value (f : gmap string string) (k : string) :
  buildWhereClause (<[k := ""]> f) = buildWhereClause (delete k f).
Proof. unfold buildWhereClause. rewrite !truthy_insert_empty. reflexivity. Qed.

Lemma search_where_empty_value (query : gmap string string) (k : string) :
  search_where (<[k := ""]> query) = search_where (delete k query).
Proof.
  unfold search_where. rewrite truthy_insert_empty.
  destruct (decide (k = "q")) as [-> | Hne].
  - rewrite delete_insert_eq. rewrite delete_delete_eq. reflexivity.
  - rewrite delete_insert_ne by congruence.
    rewrite buildWhereClause_empty_value.
    rewrite (delete_delete query "q" k). reflexivity.
Qed.

(** X16. A parameter with an empty value is treated as absent:
    [buildWhereClause] builds the same where object for it as without it,
    and a search with an empty [q] or an empty filter returns what the
    search without that parameter returns. *)
Theorem empty_values_are_ignored (query : gmap string string) (k : string)
    (t : Table) :
  buildWhereClause (<[k := ""]> query) = buildWhereClause (delete k query)
  /\ status (get_search (<[k := ""]> query) t) = status (get_search (delete k query) t)
  /\ data_list (get_search (<[k := ""]> query) t)
     = data_list (get_search (delete k query) t).
Proof.
  split; [apply buildWhereClause_empty_value |].
  unfold get_search. rewrite search_where_empty_value.
  destruct (findAll _ t); split; reflexivity.
Qed.

Lemma lower_upper_ascii (c : ascii) : lower_ascii (upper_ascii c) = lower_ascii c.
Proof. destruct c as [[] [] [] [] [] [] [] []]; vm_compute; reflexivity. Qed.

Lemma toLowerCase_toUpperCase (s : string) :
  toLowerCase (toUpperCase s) = toLowerCase s.
Proof.
  unfold toLowerCase, toUpperCase. induction s as [| c s IH]; simpl; [reflexivity |].
  rewrite lower_upper_ascii, IH. reflexivity.
Qed.

Lemma ilike_pattern_case (q q' s : string) :
  toLowerCase q' = toLowerCase q ->
  ilike (String.append "%" (String.append q' "%")) s
  = ilike (String.append "%" (String.append q "%")) s.
Proof.
  intros H. unfold ilike. rewrite !toLowerCase_app, H. reflexivity.
Qed.

(** X17. The search does not depend on the letter case of [q]: two values
    of [q] that differ only in case give the same status and the same
    rows. *)
Theorem search_ignores_case_of_q (query : gmap string string) (t : Table)
    (q q' : string) :
  toLowerCase q' = toLowerCase q ->
  status (get_search (<["q" := q']> query) t)
  = status (get_search (<["q" := q]> query) t)
  /\ data_list (get_search (<["q" := q']> query) t)
     = data_list (get_search (<["q" := q]> query) t).
Proof.
  intros Hcase.
  assert (Hops : where_operands (search_where (<["q" := q']> query))
                 = where_operands (search_where (<["q" := q]> query))).
  { rewrite !search_where_operands, !delete_insert_eq. reflexivity. }
  assert (Hm : forall p, matches (search_where (<["q" := q']> query)) p
                         = matches (search_where (<["q" := q]> query)) p).
  { intros p.
    rewrite (search_where_matches _ q') by apply lookup_insert_eq.
    rewrite (search_where_matches _ q) by apply lookup_insert_eq.
    rewrite !delete_insert_eq.
    rewrite !(ilike_pattern_case q q' _ Hcase). reflexivity. }
  unfold get_search, findAll. rewrite Hops.
  destruct (where_operands (search_where (<["q" := q]> query)));
    [| split; reflexivity].
  rewrite !bind_ok. unfold data_list. simpl.
  split; [reflexivity |]. apply filter_ext. exact Hm.
Qed.

Lemma search_ignores_case_of_q_witness :
  data_list (get_search {["q" := "PIKA"]} two_rows)
  = data_list (get_search {["q" := "pika"]} two_rows).
Proof.
  destruct (search_ignores_case_of_q ∅ two_rows "pika" "PIKA") as [_ H];
    [reflexivity |].
  exact H.
Defined.

(** X18. A search that sets none of [q], [name], [type], [generation],
    [minStats] and [maxStats] (or sets them to the empty string) is answered
    200 with every row of the table, each one once.  The query has no
    ORDER BY, so nothing is said about the order of the rows. *)
Theorem search_without_criteria_returns_all (query : gmap string string) (t : Table) :
  Forall (fun k => truthy (query !! k) = None)
    ["q"; "name"; "type"; "generation"; "minStats"; "maxStats"] ->
  status (get_search query t) = 200
  /\ data_list (get_search query t) ≡ₚ rows t.
Proof.
  intros H.
  repeat (apply Forall_cons in H as [? H]).
  assert (Hw : search_where query = Where.empty).
  { unfold search_where, buildWhereClause.
    rewrite !lookup_delete_ne by done.
    repeat match goal with Hk : truthy _ = None |- _ => rewrite Hk; clear Hk end.
    reflexivity. }
  unfold get_search, findAll. rewrite Hw. simpl. split; [reflexivity |].
  unfold data_list. simpl. induction (rows t) as [| r l IH]; [reflexivity |].
  simpl. constructor. exact IH.
Qed.

Lemma search_without_criteria_returns_all_witness :
  data_list (get_search (<["page" := "2"]> {["q" := ""]}) two_rows) ≡ₚ rows two_rows.
Proof.
  destruct (search_without_criteria_returns_all
              (<["page" := "2"]> {["q" := ""]}) two_rows) as [_ H];
    [repeat constructor | exact H].
Defined.

(** ** Stat totals and partial updates *)

Lemma total_of_recomputed (o : gmap string jsval) (p : Pokemon.t) :
  Pokemon.baseStats p = JObj (<["total" := JNum (sum_values o)]> o) ->
  Pokemon.total p = Some (sum_values o).
Proof.
  intros H. unfold Pokemon.total. rewrite H, lookup_insert_eq. reflexivity.
Qed.

(** X19. For a request body that holds only the attributes name, species,
    types, baseStats, generation and description (no id and no dotted key
    such as baseStats.hp), whose stat block holds the six stats and nothing
    else, each an integer of magnitude at most 2^50 (so that every partial
    sum is below 2^53 and the additions are exact), the entity returned by
    POST, and the one returned by PUT, has a total equal to the sum of the
    six. *)
Theorem six_stats_total (d : PokemonData) (t : Table) (id : string)
    (hp attack defense specialAttack specialDefense speed : Z) :
  d_baseStats d
  = Some (JObj (stat_block hp attack defense specialAttack specialDefense speed)) ->
  Forall (fun v => Z.abs v <= 2 ^ 50)
    [hp; attack; defense; specialAttack; specialDefense; speed] ->
  (forall p, data_entity (post_pokemon d t).1 = Some p ->
     Pokemon.total p
     = Some (hp + attack + defense + specialAttack + specialDefense + speed))
  /\ (forall p, data_entity (put_pokemon id d t).1 = Some p ->
        Pokemon.total p
        = Some (hp + attack + defense + specialAttack + specialDefense + speed)).
Proof.
  intros Hd _.
  pose proof (with_total_object d _ Hd) as Hw.
  rewrite <- (sum_values_stat_block hp attack defense specialAttack specialDefense speed).
  split; intros p Hp; apply total_of_recomputed.
  - unfold post_pokemon in Hp.
    destruct (create_cases (with_total d) t)
      as [[_ Hc] | [(_ & _ & _ & _ & Hc) | (_ & q & Hc & _ & _ & _ & Hbs & _)]];
      rewrite Hc in Hp; simpl in Hp; try discriminate.
    inversion Hp; subst q. rewrite Hw in Hbs. unfold non_null in Hbs.
    injection Hbs as <-. reflexivity.
  - destruct (put_pokemon_table id d t)
      as [[_ Hnone] | (k & q & q' & t' & _ & _ & _ & Hu & Heq)]; [congruence |].
    rewrite Heq in Hp. simpl in Hp. inversion Hp; subst q'.
    apply update_ok in Hu as (_ & _ & _ & _ & ->). cbn [Pokemon.baseStats].
    rewrite Hw. reflexivity.
Qed.

Lemma six_stats_total_witness :
  exists p, data_entity (post_pokemon pikachu empty_table).1 = Some p
            /\ Pokemon.total p = Some (35 + 55 + 40 + 50 + 50 + 90).
Proof.
  assert (Hp : exists p, data_entity (post_pokemon pikachu empty_table).1 = Some p)
    by (eexists; reflexivity).
  destruct Hp as [p Hp]. exists p. split; [exact Hp |].
  assert (Hb : Forall (fun v => Z.abs v <= 2 ^ 50) [35; 55; 40; 50; 50; 90])
    by (repeat (constructor; [vm_compute; discriminate |]); constructor).
  destruct (six_stats_total pikachu empty_table "1" 35 55 40 50 50 90 eq_refl Hb)
    as [H _].
  exact (H p Hp).
Defined.



(** X21. A PUT on an id that is a decimal integer literal within 32 bits
    and that no row has is answered 404 with success false and a message
    naming the id, and leaves the table as it was. *)
Theorem put_missing_id_is_404 (id : string) (k : Z) (d : PokemonData) (t : Table) :
  pg_int4_in id = Some k ->
  (forall r, r ∈ rows t -> Pokemon.id r <> k) ->
  put_pokemon id d t
  = ({| status := 404;
        content := ErrorBody "Pokémon not found"
                     (String.append "No Pokémon found with ID " id) |}, t).
Proof.
  intros Hk Habs. unfold put_pokemon, findByPk. rewrite Hk.
  rewrite (find_absent k _ Habs). reflexivity.
Qed.

Lemma put_missing_id_is_404_witness :
  status (put_pokemon "7" pikachu two_rows).1 = 404
  /\ (put_pokemon "7" pikachu two_rows).2 = two_rows.
Proof.
  rewrite (put_missing_id_is_404 "7" 7 pikachu two_rows eq_refl).
  - split; reflexivity.
  - intros r Hr. vm_compute in Hr.
    apply elem_of_cons in Hr as [-> | Hr]; [discriminate |].
    apply elem_of_cons in Hr as [-> | Hr]; [discriminate |].
    apply elem_of_nil in Hr. destruct Hr.
Defined.

(** X22. A body that sets baseStats to null is answered 400 by POST and,
    for an id that exists, 500 by PUT, whose handler has no branch for
    validation errors; neither request changes the table. *)
Theorem null_stats_post_400_put_500 (id : string) (d : PokemonData) (t : Table)
    (p : Pokemon.t) :
  d_baseStats d = Some JNull ->
  data_entity (get_pokemon id t) = Some p ->
  status (post_pokemon d t).1 = 400
  /\ (post_pokemon d t).2 = t
  /\ status (put_pokemon id d t).1 = 500
  /\ (put_pokemon id d t).2 = t.
Proof.
  intros Hd Hget.
  rewrite post_pokemon_400.
  2:{ unfold not_null_violations. rewrite Hd. simpl.
      intros H. apply (f_equal length) in H. rewrite !length_app in H.
      simpl in H. lia. }
  split; [reflexivity |]. split; [reflexivity |].
  unfold get_pokemon in Hget. unfold put_pokemon.
  destruct (findByPk id t) as [[q |] | e]; try discriminate.
  rewrite update_unfold.
  assert (null_stats (with_total d) = true) as ->.
  { unfold null_stats, with_total. rewrite Hd. simpl. rewrite Hd. reflexivity. }
  split; reflexivity.
Qed.

Lemma null_stats_post_400_put_500_witness :
  status (post_pokemon (bulbasaur JNull) two_rows).1 = 400
  /\ status (put_pokemon "1" (bulbasaur JNull) two_rows).1 = 500.
Proof.
  assert (Hp : exists p, data_entity (get_pokemon "1" two_rows) = Some p)
    by (eexists; reflexivity).
  destruct Hp as [p Hp].
  destruct (null_stats_post_400_put_500 "1" (bulbasaur JNull) two_rows p eq_refl Hp)
    as (H1 & _ & H2 & _).
  split; assumption.
Defined.
